(** * EPUB translator: the translation pipeline of [translator.py]

    A shallow embedding of the chunker, the retry loop and the document
    walker, with the external libraries (sentence tokenizer, BPE encoder,
    chat backend, template engine, EPUB reader) taken as parameters. *)

From Stdlib Require Import List ZArith NArith QArith Lia Bool String Ascii.
Import ListNotations.

Set Warnings "-register-all,-notation-for-abbreviation".

(** ** Python [str]: a sequence of Unicode code points *)

Notation char := N (only parsing).
Notation str := (list N) (only parsing).

(** A literal of the source, given by its ASCII characters. *)
Definition lit (s : string) : str :=
  map N_of_ascii (list_ascii_of_string s).

(** Truth value of a [str]: the empty string is falsy. *)
Definition truthy (s : str) : bool :=
  match s with [] => false | _ :: _ => true end.

Definition str_eqb (a b : str) : bool :=
  if list_eq_dec N.eq_dec a b then true else false.

(** [str.isspace] for one code point; the class [\s] of [re] on [str]
    patterns and the characters removed by [str.strip()] are the same set. *)
Definition isspace (c : char) : bool :=
  ((9 <=? c) && (c <=? 13) || (28 <=? c) && (c <=? 32)
   || (c =? 133) || (c =? 160) || (c =? 5760)
   || (8192 <=? c) && (c <=? 8202)
   || (c =? 8232) || (c =? 8233) || (c =? 8239) || (c =? 8287)
   || (c =? 12288))%N.

Definition SP : char := 32%N.
Definition LF : char := 10%N.
Definition CR : char := 13%N.
Definition APOSTROPHE : char := 39%N.
Definition RSQUO : char := 8217%N.  (* U+2019 *)
Definition LSQUO : char := 8216%N.  (* U+2018 *)

(** [s.replace(a, b)] for one-character [a] and [b]. *)
Definition replace (a b : char) (s : str) : str :=
  map (fun c => if (c =? a)%N then b else c) s.

(** [re.sub(r"\s+", " ", s)]: every maximal run of whitespace becomes one
    space.  [in_run] tells that the previous character was whitespace. *)
Fixpoint sub_ws (in_run : bool) (s : str) : str :=
  match s with
  | [] => []
  | c :: t =>
      if isspace c
      then (if in_run then sub_ws true t else SP :: sub_ws true t)
      else c :: sub_ws false t
  end.

Fixpoint lstrip (s : str) : str :=
  match s with
  | [] => []
  | c :: t => if isspace c then lstrip t else s
  end.

Fixpoint rstrip (s : str) : str :=
  match s with
  | [] => []
  | c :: t =>
      match rstrip t with
      | [] => if isspace c then [] else [c]
      | t' => c :: t'
      end
  end.

Definition strip (s : str) : str := rstrip (lstrip s).

(** [sep.join(parts)] *)
Fixpoint join (sep : str) (parts : list str) : str :=
  match parts with
  | [] => []
  | [p] => p
  | p :: rest => p ++ sep ++ join sep rest
  end.

(** ** Text Normalizer *)

Definition clean_text (text : str) : str :=
  let text := replace CR SP (replace LF SP text) in
  let text := replace LSQUO APOSTROPHE (replace RSQUO APOSTROPHE text) in
  strip (sub_ws false text).

(** ** Data of the external collaborators *)

(** What the chat backend hands back: a mapping that may lack the
    ["message"] key, or whose message may lack ["content"]. *)
Inductive response :=
| NoMessage
| MessageWithoutContent
| MessageContent (content : str).

Inductive chat_result :=
| Returns (r : response)
| Raises (e : str).

(** Observable effects of a run, in the order they happen. *)
Inductive event :=
| Chat (model_name prompt_content : str)
| LogAttemptFailed (attempt : Z) (e : str)
| LogSkippingChunk (max_retries : Z)
| Sleep (delay : Q)
| ProgressCallback (current total : Z).

(** A compiled template: literal data and printed names.  Only the
    [{{ name }}] form of the template language is represented. *)
Inductive piece :=
| Data (s : str)
| Name (x : string).

Definition Template := list piece.

(** The markup tree of a part, as far as the walker looks at it. *)
Inductive node :=
| NavigableString (s : str)
| Tag (name : string) (children : list node).

Record p_tag := { contents : list node }.

Inductive item_type := ITEM_DOCUMENT | ITEM_OTHER.

(** [find_all_p] is what [BeautifulSoup(content, "html.parser").find_all("p")]
    yields for the item's content, in document order. *)
Record item := { get_type : item_type; find_all_p : list p_tag }.

(** [get_metadata("DC", name)] gives a list of (value, attributes) pairs. *)
Definition metadata := list (str * list (str * str)).

Record book := {
  dc_title : metadata;
  dc_creator : metadata;
  get_items : list item
}.

Inductive fatal := TemplateLoadError | EpubReadError.

(** The terminal state of a run.  [Done] carries the book handed to
    [epub.write_epub] and the final values of the locals [current_count]
    and [total_paragraphs]. *)
Inductive outcome :=
| Failed (e : fatal)
| Done (written : book) (current_count total_paragraphs : Z).

Fixpoint all_strings (n : node) : list str :=
  match n with
  | NavigableString s => [s]
  | Tag _ children => flat_map all_strings children
  end.

(** [p_tag.get_text(strip=True)]: every text node stripped, the empty ones
    left out, the rest concatenated. *)
Definition get_text (p : p_tag) : str :=
  List.concat (filter truthy (map strip (flat_map all_strings (contents p)))).

Definition is_chat (e : event) : bool :=
  match e with Chat _ _ => true | _ => false end.

Definition is_progress (e : event) : bool :=
  match e with ProgressCallback _ _ => true | _ => false end.

(** ** Template rendering *)

Fixpoint lookup (x : string) (ctx : list (string * str)) : option str :=
  match ctx with
  | [] => None
  | (k, v) :: rest => if String.eqb x k then Some v else lookup x rest
  end.

(** [Template.render] on keyword arguments, with the engine's default
    undefined type: a
    name that the context does not bind prints as the empty string. *)
Fixpoint render (t : Template) (ctx : list (string * str)) : str :=
  match t with
  | [] => []
  | Data s :: rest => s ++ render rest ctx
  | Name x :: rest =>
      match lookup x ctx with
      | Some v => v ++ render rest ctx
      | None => render rest ctx
      end
  end.




(** ** Notions used to state the properties *)

(** The replacements of [clean_text], character by character. *)
Definition norm (c : char) : char :=
  if (c =? LF)%N then SP
  else if (c =? CR)%N then SP
  else if (c =? RSQUO)%N then APOSTROPHE
  else if (c =? LSQUO)%N then APOSTROPHE
  else c.

(** The maximal runs of non-whitespace characters, in order. *)
Fixpoint words (s : str) : list str :=
  match s with
  | [] => []
  | c :: t =>
      if isspace c then words t
      else match t with
           | [] => [[c]]
           | d :: _ =>
               if isspace d then [c] :: words t
               else match words t with
                    | w :: ws => (c :: w) :: ws
                    | [] => [[c]]
                    end
           end
  end.

Definition blank (s : str) : bool := forallb isspace s.

(** [Segmented text sentences]: the text is its sentences in order, with
    whitespace between two of them and possibly after the last. *)
Inductive Segmented : str -> list str -> Prop :=
| Segmented_end gap :
    blank gap = true -> Segmented gap []
| Segmented_sentence sentence gap text sentences :
    blank gap = true ->
    (gap = [] -> sentences = []) ->
    Segmented text sentences ->
    Segmented (sentence ++ gap ++ text) (sentence :: sentences).

Definition sum_Z (l : list Z) : Z := fold_right Z.add 0%Z l.

(** The progress notifications [(first, total)], [(first+1, total)], ... *)
Fixpoint notifications (n : nat) (first total : Z) : list event :=
  match n with
  | O => []
  | S n' => ProgressCallback first total :: notifications n' (first + 1)%Z total
  end.

(** The paragraph tags the walker visits. *)
Definition visited (items : list item) : list p_tag :=
  flat_map
    (fun it =>
       match get_type it with
       | ITEM_DOCUMENT => find_all_p it
       | ITEM_OTHER => []
       end)
    items.

(** ** Further notions, for the properties beyond the claims *)

Definition nonspace (c : char) : bool := negb (isspace c).

(** A text in the normalizer's normal form: no whitespace at either end,
    and inside only single [SP] characters between two other characters.
    [after_space] tells that a whitespace character may not come now (the
    start of the text, or right after a space). *)
Fixpoint tidy_from (after_space : bool) (s : str) : bool :=
  match s with
  | [] => negb after_space
  | c :: t =>
      if isspace c
      then (c =? SP)%N && negb after_space && tidy_from true t
      else tidy_from false t
  end.

Definition tidy (s : str) : bool :=
  match s with
  | [] => true
  | _ :: _ => tidy_from true s
  end.

(** Every logged failure of an attempt is directly followed by the wait of
    [delay], and there is no other wait. *)
Fixpoint well_paced (delay : Q) (trace : list event) : Prop :=
  match trace with
  | [] => True
  | LogAttemptFailed _ _ :: rest =>
      match rest with
      | Sleep d :: rest' => d = delay /\ well_paced delay rest'
      | _ => False
      end
  | Sleep _ :: _ => False
  | _ :: rest => well_paced delay rest
  end.


Definition is_skip (e : event) : bool :=
  match e with LogSkippingChunk _ => true | _ => false end.

(** The settings of a run that leaves [max_retries] and [delay] to their
    defaults show in its events: waits of 2.0, skips after 3 attempts, and
    failed attempts numbered 1 to 3. *)
Definition default_settings (e : event) : Prop :=
  match e with
  | Sleep d => d = 2 # 1
  | LogSkippingChunk n => n = 3%Z
  | LogAttemptFailed a _ => (1 <= a <= 3)%Z
  | _ => True
  end.

(** An item of the written book against the item it comes from: the type
    is kept, and an item that is not a document is the same item. *)
Definition same_item (it it' : item) : Prop :=
  get_type it' = get_type it
  /\ match get_type it with
     | ITEM_OTHER => it' = it
     | ITEM_DOCUMENT => True
     end.

(** The chunks that reach the prompt renderer: stripped, the empty ones
    left out. *)
Definition sendable (chunk_list : list str) : list str :=
  filter truthy (map strip chunk_list).

(** ** The desktop front end, as far as it drives the pipeline *)

Module Gui.

(** The values of the widgets read by [start_translation]. *)
Record form := {
  inputEdit : str;
  outputEdit : str;
  templateEdit : str;
  languageEdit : str;
  modelEdit : str;
  tokenSpin : Z;
  genreEdit : str;
  bilingualCheck : bool;
  titleEdit : str;
  authorEdit : str
}.

(** The attributes of a [Worker]. *)
Record Worker := {
  input_path : str;
  output_path : str;
  language : str;
  model_name : str;
  token_limit : Z;
  template_path : str;
  genre : str;
  bilingual : bool;
  override_title : str;
  override_author : str
}.

(** What [Worker.run] catches around [translate_book]: a failed load of
    the template or of the book, or [epub.write_epub] failing on the
    output path. *)
Inductive exception :=
| LoadError (e : fatal)
| WriteError.

(** The signals a worker emits. *)
Inductive signal :=
| progressChanged (current total : Z)
| finished
| error (e : exception).

(** What [start_translation] does: the warning box and nothing else, or a
    worker handed to a new thread. *)
Inductive started :=
| MissingInfo
| Started (worker : Worker).

(** [all([...])] over the required fields. *)
Definition all_truthy (fields : list str) : bool := forallb truthy fields.

Definition start_translation (f : form) : started :=
  let input_path := strip (inputEdit f) in
  let output_path := strip (outputEdit f) in
  let template_path := strip (templateEdit f) in
  let language := strip (languageEdit f) in
  let model_name := strip (modelEdit f) in
  let token_limit := tokenSpin f in
  let genre_str := strip (genreEdit f) in
  let bilingual_flag := bilingualCheck f in
  let override_title := strip (titleEdit f) in
  let override_author := strip (authorEdit f) in
  if negb (all_truthy [input_path; output_path; template_path; language;
                       model_name; genre_str])
  then MissingInfo
  else Started
         {| input_path := input_path; output_path := output_path;
            language := language; model_name := model_name;
            token_limit := token_limit; template_path := template_path;
            genre := genre_str; bilingual := bilingual_flag;
            override_title := override_title;
            override_author := override_author |}.

(** The [progressChanged] signals of the callback invocations of a run. *)
Definition progress_signals (trace : list event) : list signal :=
  flat_map
    (fun e =>
       match e with
       | ProgressCallback current total => [progressChanged current total]
       | _ => []
       end)
    trace.

End Gui.

(** ** Sample collaborators, for concrete runs *)

(** Values of the Punkt sentence tokenizer on a few texts.  A text with no
    sentence break is one sentence, its trailing whitespace dropped; Punkt
    breaks after [!] also when an opening bracket follows at once. *)
Definition sample_sent_tokenize (text : str) : list str :=
  if str_eqb text (lit "Hi! 2 cats.") then [lit "Hi!"; lit "2 cats."]
  else if str_eqb text (lit "Stop!(now)") then [lit "Stop!"; lit "(now)"]
  else if str_eqb text (lit "It rains. We stay.")
       then [lit "It rains."; lit "We stay."]
  else match rstrip text with
       | [] => []
       | sentence => [sentence]
       end.

(** Values of the [cl100k_base] encoding on a few texts, each token given
    by the characters it stands for.  The encoding never merges a space
    into a following digit, so the space before [2] is a token of its own.
    Other texts are given one token per character. *)
Definition sample_encode (text : str) : list str :=
  if str_eqb text (lit "Hi!") then [lit "Hi"; lit "!"]
  else if str_eqb text (lit "2 cats.") then [lit "2"; lit " cats"; lit "."]
  else if str_eqb text (lit "Hi! 2 cats.")
       then [lit "Hi"; lit "!"; lit " "; lit "2"; lit " cats"; lit "."]
  else map (fun c => [c]) text.

(** A backend that plays a script, one entry per call, and refuses the
    connection once the script is over. *)
Definition scripted_chat (model_name prompt_content : str)
    (script : list chat_result) : chat_result * list chat_result :=
  match script with
  | [] => (Raises (lit "connection refused"), [])
  | r :: script' => (r, script')
  end.

(** A backend whose every answer lacks the ["message"] key. *)
Definition empty_reply_chat (model_name prompt_content : str) (calls : nat)
  : chat_result * nat :=
  (Returns NoMessage, S calls).

Definition sample_html_parser (markup : str) : list node :=
  if str_eqb markup
       (lit "ORIGINAL: Bonjour<br/><br/><i>TRANSLATION: Hello</i>")
  then [NavigableString (lit "ORIGINAL: Bonjour");
        Tag "br" []; Tag "br" [];
        Tag "i" [NavigableString (lit "TRANSLATION: Hello")]]
  else [NavigableString markup].

Definition paragraph (text : str) : p_tag :=
  {| contents := [NavigableString text] |}.

Definition hello_book : book :=
  {| dc_title := [(lit "Greetings", [])];
     dc_creator := [];
     get_items :=
       [ {| get_type := ITEM_OTHER; find_all_p := [] |};
         {| get_type := ITEM_DOCUMENT;
            find_all_p := [paragraph (lit "Hello world."); paragraph []] |} ] |}.

Definition bonjour_book : book :=
  {| dc_title := []; dc_creator := [(lit "A. Nonyme", [])];
     get_items :=
       [ {| get_type := ITEM_DOCUMENT;
            find_all_p := [paragraph (lit "Bonjour")] |} ] |}.

Definition sample_read_epub (path : str) : option book :=
  if str_eqb path (lit "hello.epub") then Some hello_book
  else if str_eqb path (lit "bonjour.epub") then Some bonjour_book
  else None.

Definition plain_template : Template :=
  [Data (lit "Translate into "); Name "language"; Data (lit ": "); Name "text"].

(** A template that prints [glossary], a name the renderer is never given. *)
Definition glossary_template : Template :=
  [Name "glossary"; Data (lit "Translate: "); Name "text"].

Definition sample_read_file (path : str) : option str :=
  if str_eqb path (lit "prompt.txt")
  then Some (lit "Translate into {{ language }}: {{ text }}")
  else if str_eqb path (lit "glossary.txt")
  then Some (lit "{{ glossary }}Translate: {{ text }}")
  else if str_eqb path (lit "broken.txt")
  then Some (lit "Translate {{ text")
  else None.

Definition sample_compile_template (template_str : str) : option Template :=
  if str_eqb template_str (lit "Translate into {{ language }}: {{ text }}")
  then Some plain_template
  else if str_eqb template_str (lit "{{ glossary }}Translate: {{ text }}")
  then Some glossary_template
  else None.

(** A backend that answers every prompt with the prompt itself. *)
Definition echo_chat (model_name prompt_content : str) (calls : nat)
  : chat_result * nat :=
  (Returns (MessageContent prompt_content), S calls).

(** A book whose paragraphs hold nothing but whitespace. *)
Definition blank_book : book :=
  {| dc_title := [(lit "Blank", [])];
     dc_creator := [];
     get_items :=
       [ {| get_type := ITEM_DOCUMENT;
            find_all_p := [paragraph (lit "  "); paragraph []] |};
         {| get_type := ITEM_OTHER; find_all_p := [] |};
         {| get_type := ITEM_DOCUMENT;
            find_all_p := [{| contents := [Tag "span" [NavigableString [SP]]] |}] |} ] |}.

Definition blank_read_epub (path : str) : option book :=
  if str_eqb path (lit "blank.epub") then Some blank_book else None.

(** The form filled with spaces around the values and a title override of
    spaces only, and the worker it starts. *)
Definition sample_form : Gui.form :=
  {| Gui.inputEdit := lit " hello.epub";
     Gui.outputEdit := lit "out.epub ";
     Gui.templateEdit := lit "prompt.txt";
     Gui.languageEdit := lit "German";
     Gui.modelEdit := lit "llama3";
     Gui.tokenSpin := 512;
     Gui.genreEdit := lit "General";
     Gui.bilingualCheck := false;
     Gui.titleEdit := lit "   ";
     Gui.authorEdit := lit " A. Nonyme " |}.

Definition sample_worker : Gui.Worker :=
  {| Gui.input_path := lit "hello.epub";
     Gui.output_path := lit "out.epub";
     Gui.language := lit "German";
     Gui.model_name := lit "llama3";
     Gui.token_limit := 512;
     Gui.template_path := lit "prompt.txt";
     Gui.genre := lit "General";
     Gui.bilingual := false;
     Gui.override_title := [];
     Gui.override_author := lit "A. Nonyme" |}.

(** ** The pipeline, over its external collaborators *)

Section Translator.

(** [nltk.sent_tokenize] *)
Variable sent_tokenize : str -> list str.

(** [ENCODER.encode], the subword encoder, with its type of tokens *)
Variable token : Type.
Variable ENCODER_encode : str -> list token.

(** The chat backend and the state it lives in *)
Variable World : Type.
Variable chat : str -> str -> World -> chat_result * World.

(** [BeautifulSoup(markup, "html.parser")], as the list of top nodes *)
Variable html_parser : str -> list node.

(** [epub.read_epub], [open(path).read()] and the template compiler;
    [None] stands for the exception each of them may raise. *)
Variable read_epub : str -> option book.
Variable read_file : str -> option str.
Variable compile_template : str -> option Template.

(** *** A computation: the backend state threaded, the events collected *)

Definition M (A : Type) : Type := World -> A * list event * World.

Definition ret {A} (a : A) : M A := fun w => (a, [], w).

Definition bind {A B} (m : M A) (k : A -> M B) : M B :=
  fun w =>
    let '(a, t1, w1) := m w in
    let '(b, t2, w2) := k a w1 in
    (b, t1 ++ t2, w2).

Definition emit (e : event) : M unit := fun w => (tt, [e], w).

Definition call_chat (model_name prompt_content : str) : M chat_result :=
  fun w =>
    let '(r, w') := chat model_name prompt_content w in
    (r, [Chat model_name prompt_content], w').

Notation "x <- m ;; k" := (bind m (fun x => k))
  (at level 61, m at next level, right associativity).
Notation "m ;;; k" := (bind m (fun _ => k))
  (at level 61, right associativity).

(** *** Prompt template *)

Definition load_prompt_template (template_path : str) : option Template :=
  match read_file template_path with
  | Some template_str => compile_template template_str
  | None => None
  end.

(** *** Token Estimator *)

Definition count_tokens (text : str) : Z :=
  Z.of_nat (List.length (ENCODER_encode text)).

(** *** Chunker *)

Record chunker := {
  chunks : list str;
  current_chunk : list str;
  current_length : Z
}.

Definition flush (st : chunker) : list str :=
  match current_chunk st with
  | [] => chunks st
  | _ :: _ => chunks st ++ [join [SP] (current_chunk st)]
  end.

(** One turn of [for sentence in sentences]. *)
Definition chunker_step (max_tokens : Z) (st : chunker) (sentence : str)
  : chunker :=
  let sentence_cleaned := clean_text sentence in
  let sentence_length := count_tokens sentence_cleaned in
  if (current_length st + sentence_length >? max_tokens)%Z
  then {| chunks := flush st;
          current_chunk := [sentence_cleaned];
          current_length := sentence_length |}
  else {| chunks := chunks st;
          current_chunk := current_chunk st ++ [sentence_cleaned];
          current_length := (current_length st + sentence_length)%Z |}.

Definition split_text_by_tokens (text : str) (max_tokens : Z) : list str :=
  let sentences := sent_tokenize text in
  flush (fold_left (chunker_step max_tokens) sentences
           {| chunks := []; current_chunk := []; current_length := 0%Z |}).

(** *** Translation Invoker *)

(** [for attempt in range(max_retries)], with [remaining] turns left;
    [None] is the [else] branch of the loop: nothing was appended. *)
Fixpoint retry (remaining : nat) (attempt : Z) (max_retries : Z) (delay : Q)
    (model_name prompt_content : str) : M (option str) :=
  match remaining with
  | O => emit (LogSkippingChunk max_retries) ;;; ret None
  | S remaining' =>
      r <- call_chat model_name prompt_content ;;
      match r with
      | Returns (MessageContent content) => ret (Some (strip content))
      | Returns _ =>
          retry remaining' (attempt + 1)%Z max_retries delay
            model_name prompt_content
      | Raises e =>
          emit (LogAttemptFailed (attempt + 1)%Z e) ;;;
          emit (Sleep delay) ;;;
          retry remaining' (attempt + 1)%Z max_retries delay
            model_name prompt_content
      end
  end.

Definition prompt_context (language text genre title author : str)
  : list (string * str) :=
  [("language", language); ("text", text); ("genre", genre);
   ("title", title); ("author", author)]%string.

(** [for chunk in chunks], with the list [translated_chunks] built so far. *)
Fixpoint translate_chunks (chunks : list str) (translated_chunks : list str)
    (target_language model_name : str) (prompt_template : Template)
    (genre title author : str) (max_retries : Z) (delay : Q)
  : M (list str) :=
  match chunks with
  | [] => ret translated_chunks
  | chunk :: rest =>
      let chunk := strip chunk in
      if truthy chunk then
        let prompt_content :=
          render prompt_template
            (prompt_context target_language chunk genre title author) in
        r <- retry (Z.to_nat max_retries) 0 max_retries delay
               model_name prompt_content ;;
        translate_chunks rest
          (match r with
           | Some translated_text => translated_chunks ++ [translated_text]
           | None => translated_chunks
           end)
          target_language model_name prompt_template genre title author
          max_retries delay
      else
        translate_chunks rest translated_chunks
          target_language model_name prompt_template genre title author
          max_retries delay
  end.

Definition translate_text (text target_language model_name : str)
    (token_limit : Z) (prompt_template : Template)
    (genre title author : str) (max_retries : Z) (delay : Q) : M str :=
  let text := strip text in
  if truthy text then
    let chunks := split_text_by_tokens text (token_limit / 2)%Z in
    translated_chunks <-
      translate_chunks chunks [] target_language model_name prompt_template
        genre title author max_retries delay ;;
    ret (join [SP] translated_chunks)
  else ret [].

Definition default_max_retries : Z := 3.
Definition default_delay : Q := 2 # 1.

(** *** Paragraph pre-pass *)

Definition count_in_items (items : list item) : Z :=
  fold_left
    (fun total_paragraphs it =>
       match get_type it with
       | ITEM_DOCUMENT =>
           (total_paragraphs + Z.of_nat (List.length (find_all_p it)))%Z
       | ITEM_OTHER => total_paragraphs
       end)
    items 0%Z.

Definition count_paragraphs_in_book (input_path : str) : option Z :=
  match read_epub input_path with
  | Some b => Some (count_in_items (get_items b))
  | None => None
  end.

(** *** Document Walker *)

Definition resolve (override : str) (data : metadata) (fallback : str) : str :=
  let from_epub :=
    match data with
    | (value, _) :: _ => value
    | [] => fallback
    end in
  if truthy override then override else from_epub.

Definition combined_html (clean_paragraph translated : str) : str :=
  lit "ORIGINAL: " ++ clean_paragraph
    ++ lit "<br/><br/>"
    ++ lit "<i>TRANSLATION: " ++ translated ++ lit "</i>".

Section Walk.

Variables (language model_name : str) (token_limit : Z)
          (prompt_template : Template) (progress_callback : bool)
          (genre : str) (bilingual : bool)
          (final_title final_author : str) (total_paragraphs : Z).

(** The body of [for p_tag in paragraphs] up to the progress update:
    the tag as it is left by this turn. *)
Definition translate_paragraph (p : p_tag) : M p_tag :=
  let original_text := get_text p in
  let clean_paragraph := clean_text original_text in
  if truthy clean_paragraph then
    translated <-
      translate_text clean_paragraph language model_name token_limit
        prompt_template genre final_title final_author
        default_max_retries default_delay ;;
    ret (if bilingual
         then {| contents :=
                   [Tag "[document]"
                      (html_parser (combined_html clean_paragraph translated))] |}
         else {| contents := [NavigableString translated] |})
  else ret p.

Definition report_progress (current_count : Z) : M unit :=
  if progress_callback
  then emit (ProgressCallback current_count total_paragraphs)
  else ret tt.

Fixpoint walk_paragraphs (paragraphs : list p_tag) (current_count : Z)
  : M (list p_tag * Z) :=
  match paragraphs with
  | [] => ret ([], current_count)
  | p :: rest =>
      p' <- translate_paragraph p ;;
      let current_count := (current_count + 1)%Z in
      report_progress current_count ;;;
      r <- walk_paragraphs rest current_count ;;
      ret (p' :: fst r, snd r)
  end.

(** The loop over [book.get_items()].  A document item is handed on with
    the walked tags, which stand for the tree serialised by
    [item.set_content(str(soup))]; what a new parse of that markup would
    find is not part of this model. *)
Fixpoint walk_items (items : list item) (current_count : Z)
  : M (list item * Z) :=
  match items with
  | [] => ret ([], current_count)
  | it :: rest =>
      match get_type it with
      | ITEM_DOCUMENT =>
          r <- walk_paragraphs (find_all_p it) current_count ;;
          r' <- walk_items rest (snd r) ;;
          ret ({| get_type := ITEM_DOCUMENT; find_all_p := fst r |}
                 :: fst r', snd r')
      | ITEM_OTHER =>
          r' <- walk_items rest current_count ;;
          ret (it :: fst r', snd r')
      end
  end.

End Walk.

Definition translate_book (input_path output_path language model_name : str)
    (token_limit : Z) (template_path : str) (progress_callback : bool)
    (genre : str) (bilingual : bool) (override_title override_author : str)
  : M outcome :=
  match load_prompt_template template_path with
  | None => ret (Failed TemplateLoadError)
  | Some prompt_template =>
      match read_epub input_path with
      | None => ret (Failed EpubReadError)
      | Some b =>
          let final_title :=
            resolve override_title (dc_title b) (lit "Unknown Title") in
          let final_author :=
            resolve override_author (dc_creator b) (lit "Unknown Author") in
          match count_paragraphs_in_book input_path with
          | None => ret (Failed EpubReadError)
          | Some total_paragraphs =>
              r <- walk_items language model_name token_limit
                     prompt_template progress_callback genre bilingual
                     final_title final_author total_paragraphs
                     (get_items b) 0%Z ;;
              ret (Done {| dc_title := dc_title b;
                           dc_creator := dc_creator b;
                           get_items := fst r |}
                        (snd r) total_paragraphs)
          end
      end
  end.

(** *** The worker of the front end *)

(** [epub.write_epub(output_path, book, {})], the last statement of
    [translate_book]: whether the file could be written.  It runs on the
    book a completed walk leaves in [Done]. *)
Variable write_epub : str -> book -> bool.

(** [Worker.run]: the run with the signal-emitting callback, then
    [finished]; [error] instead when a load or the write raised.  The
    library calls of the walk are total here, so a walk that raises is
    not among the runs. *)
Definition Worker_run (self : Gui.Worker) : World -> list Gui.signal * World :=
  fun w =>
    let '(result, trace, w') :=
      translate_book (Gui.input_path self) (Gui.output_path self)
        (Gui.language self) (Gui.model_name self) (Gui.token_limit self)
        (Gui.template_path self) true (Gui.genre self) (Gui.bilingual self)
        (Gui.override_title self) (Gui.override_author self) w in
    (Gui.progress_signals trace
       ++ [match result with
           | Done written _ _ =>
               if write_epub (Gui.output_path self) written
               then Gui.finished
               else Gui.error Gui.WriteError
           | Failed e => Gui.error (Gui.LoadError e)
           end],
     w').

(** A backend call made for one of the chunks [allowed], with the given
    model and the template rendered on that chunk. *)
Definition chat_for (model_name : str) (prompt_template : Template)
    (language genre title author : str) (allowed : list str) (e : event)
  : Prop :=
  match e with
  | Chat m prompt_content =>
      m = model_name
      /\ exists chunk,
           In chunk allowed
           /\ prompt_content =
                render prompt_template
                  (prompt_context language chunk genre title author)
  | _ => True
  end.

(** *** Further notions on the chunker *)

(** Consecutive groups cannot be merged: the running estimate of a group
    and the estimate of the sentence that opens the next one are together
    over the budget. *)
Inductive greedy (max_tokens : Z) : list (list str) -> Prop :=
| greedy_nil : greedy max_tokens []
| greedy_one g : greedy max_tokens [g]
| greedy_cons g s g' rest :
    (sum_Z (map count_tokens g) + count_tokens s > max_tokens)%Z ->
    greedy max_tokens ((s :: g') :: rest) ->
    greedy max_tokens (g :: (s :: g') :: rest).

(** The chunker's loop invariant for the grouping [gs] being greedy. *)
Definition greedy_inv (max_tokens : Z) (done : list str) (st : chunker)
    (gs : list (list str)) : Prop :=
  chunks st = map (join [SP]) gs
  /\ List.concat gs ++ current_chunk st = map clean_text done
  /\ current_length st = sum_Z (map count_tokens (current_chunk st))
  /\ ((current_chunk st = [] /\ gs = [])
      \/ (current_chunk st <> [] /\ greedy max_tokens (gs ++ [current_chunk st]))).

(** *** Notions used to state the chunker's properties *)

(** A word: not empty, no whitespace in it. *)
Definition solid (w : str) : Prop :=
  w <> [] /\ Forall (fun c => isspace c = false) w.

(** The words of a text after the character replacements. *)
Definition normalized_words (s : str) : list str := words (map norm s).

(** The running token estimate of a group of cleaned sentences. *)
Definition estimate_sum (g : list str) : Z := sum_Z (map count_tokens g).

(** A group respects the budget, or is one sentence that is over it by
    itself. *)
Definition within (max_tokens : Z) (g : list str) : Prop :=
  (estimate_sum g <= max_tokens)%Z
  \/ exists s, g = [s] /\ (count_tokens s > max_tokens)%Z.

(** The budget as a bound on the chunks' own estimates: every chunk is
    estimated within the budget, or is one cleaned sentence over it. *)
Definition chunk_estimates_bounded (text : str) (max_tokens : Z) : Prop :=
  Forall
    (fun chunk =>
       (count_tokens chunk <= max_tokens)%Z
       \/ exists sentence,
            In sentence (sent_tokenize text)
            /\ chunk = clean_text sentence
            /\ (count_tokens chunk > max_tokens)%Z)
    (split_text_by_tokens text max_tokens).

(** The loop invariant of the chunker, after the sentences [done]: the
    emitted chunks are the joined groups [gs]. *)
Record chunker_inv (max_tokens : Z) (done : list str) (st : chunker)
    (gs : list (list str)) : Prop := {
  inv_chunks : chunks st = map (join [SP]) gs;
  inv_order : List.concat gs ++ current_chunk st = map clean_text done;
  inv_nonempty : Forall (fun g => g <> []) gs;
  inv_within : Forall (within max_tokens) gs;
  inv_current : current_chunk st = [] \/ within max_tokens (current_chunk st);
  inv_length : current_length st = estimate_sum (current_chunk st)
}.

(** *** Notions used to state the properties of runs *)

Definition value_of {A} (r : A * list event * World) : A := fst (fst r).
Definition trace_of {A} (r : A * list event * World) : list event :=
  snd (fst r).
Definition world_of {A} (r : A * list event * World) : World := snd r.

(** Every event of every run of [m] satisfies [P]. *)
Definition traces {A} (P : event -> Prop) (m : M A) : Prop :=
  forall w, Forall P (trace_of (m w)).



(** [p_tag.get_text()] without stripping: the text of the unit as it
    stands in the document. *)
Definition raw_text (p : p_tag) : str :=
  List.concat (flat_map all_strings (contents p)).

(** ** Properties of the string operations *)

Lemma isspace_SP : isspace SP = true.
Proof. reflexivity. Qed.

Lemma norm_fixes_SP : norm SP = SP.
Proof. reflexivity. Qed.

Lemma norm_cases (c : char) :
  (norm c = SP /\ isspace c = true) \/ norm c = APOSTROPHE \/ norm c = c.
Proof.
  unfold norm.
  destruct (N.eqb_spec c LF) as [->|_]; [left; split; reflexivity|].
  destruct (N.eqb_spec c CR) as [->|_]; [left; split; reflexivity|].
  destruct (N.eqb_spec c RSQUO) as [->|_]; [right; left; reflexivity|].
  destruct (N.eqb_spec c LSQUO) as [->|_]; [right; left; reflexivity|].
  right; right; reflexivity.
Qed.

Lemma norm_idempotent (c : char) : norm (norm c) = norm c.
Proof.
  unfold norm.
  destruct (c =? LF)%N eqn:E1; [reflexivity|].
  destruct (c =? CR)%N eqn:E2; [reflexivity|].
  destruct (c =? RSQUO)%N eqn:E3; [reflexivity|].
  destruct (c =? LSQUO)%N eqn:E4; [reflexivity|].
  rewrite E1, E2, E3, E4. reflexivity.
Qed.

Lemma isspace_norm (c : char) : isspace (norm c) = isspace c.
Proof.
  unfold norm.
  destruct (N.eqb_spec c LF) as [->|_]; [reflexivity|].
  destruct (N.eqb_spec c CR) as [->|_]; [reflexivity|].
  destruct (N.eqb_spec c RSQUO) as [->|_]; [reflexivity|].
  destruct (N.eqb_spec c LSQUO) as [->|_]; reflexivity.
Qed.

Lemma replacements_norm (text : str) :
  replace LSQUO APOSTROPHE
    (replace RSQUO APOSTROPHE (replace CR SP (replace LF SP text)))
  = map norm text.
Proof.
  unfold replace. rewrite !map_map. apply map_ext. intro c. unfold norm.
  destruct (N.eqb_spec c LF) as [->|_]; [reflexivity|].
  destruct (N.eqb_spec c CR) as [->|_]; [reflexivity|].
  destruct (N.eqb_spec c RSQUO) as [->|_]; [reflexivity|].
  reflexivity.
Qed.

Lemma lstrip_sub_ws_true (s : str) :
  lstrip (sub_ws true s) = sub_ws true s.
Proof.
  induction s as [|c t IH]; simpl; [reflexivity|].
  destruct (isspace c) eqn:E; [exact IH|].
  simpl. rewrite E. reflexivity.
Qed.

Lemma lstrip_sub_ws (b : bool) (s : str) :
  lstrip (sub_ws b s) = sub_ws true s.
Proof.
  destruct b; [apply lstrip_sub_ws_true|].
  destruct s as [|c t]; simpl; [reflexivity|].
  destruct (isspace c) eqn:E; simpl.
  - apply lstrip_sub_ws_true.
  - rewrite E. reflexivity.
Qed.

Lemma sub_ws_solid_head (b : bool) (c : char) (t : str) :
  isspace c = false -> sub_ws b (c :: t) = c :: sub_ws false t.
Proof. intro E. simpl. rewrite E. reflexivity. Qed.

(** *** Unfolding [words] *)

Lemma words_space (c : char) (t : str) :
  isspace c = true -> words (c :: t) = words t.
Proof. intro E. simpl. rewrite E. reflexivity. Qed.

Lemma words_head_nonempty (c : char) (t : str) :
  isspace c = false -> words (c :: t) <> [].
Proof.
  intro E. simpl. rewrite E.
  destruct t as [|d t']; [discriminate|].
  destruct (isspace d); [discriminate|].
  destruct (words (d :: t')); discriminate.
Qed.

Lemma words_then_space (c d : char) (t : str) :
  isspace c = false -> isspace d = true ->
  words (c :: d :: t) = [c] :: words t.
Proof.
  intros Ec Ed. change (words (c :: d :: t)) with
    (if isspace c then words (d :: t)
     else if isspace d then [c] :: words (d :: t)
          else match words (d :: t) with
               | w :: ws => (c :: w) :: ws
               | [] => [[c]]
               end).
  rewrite Ec, Ed, (words_space _ _ Ed). reflexivity.
Qed.

Lemma words_then_char (c d : char) (t : str) :
  isspace c = false -> isspace d = false ->
  exists w ws, words (d :: t) = w :: ws /\ words (c :: d :: t) = (c :: w) :: ws.
Proof.
  intros Ec Ed.
  destruct (words (d :: t)) as [|w ws] eqn:W.
  - exfalso. exact (words_head_nonempty _ t Ed W).
  - exists w, ws. split; [reflexivity|].
    change (words (c :: d :: t)) with
      (if isspace c then words (d :: t)
       else if isspace d then [c] :: words (d :: t)
            else match words (d :: t) with
                 | w :: ws => (c :: w) :: ws
                 | [] => [[c]]
                 end).
    rewrite Ec, Ed, W. reflexivity.
Qed.

Lemma words_blank (g : str) : blank g = true -> words g = [].
Proof.
  induction g as [|c t IH]; [reflexivity|].
  simpl. intro H. apply andb_prop in H as [Hc Ht].
  rewrite Hc. exact (IH Ht).
Qed.

Lemma words_blank_app (g s : str) :
  blank g = true -> words (g ++ s) = words s.
Proof.
  induction g as [|c t IH]; [reflexivity|].
  cbn [app]. intro H. simpl in H. apply andb_prop in H as [Hc Ht].
  rewrite (words_space _ _ Hc). exact (IH Ht).
Qed.

(** A whitespace character between two texts separates their words. *)
Lemma words_app_space (a : str) (c : char) (b : str) :
  isspace c = true -> words (a ++ c :: b) = words a ++ words b.
Proof.
  intro Hc. induction a as [|x a IH].
  - cbn [app]. apply words_space, Hc.
  - destruct (isspace x) eqn:Ex.
    + cbn [app]. rewrite (words_space _ (a ++ c :: b) Ex), (words_space _ a Ex).
      exact IH.
    + destruct a as [|y a'].
      * cbn [app]. rewrite (words_then_space _ _ _ Ex Hc).
        simpl. rewrite Ex. reflexivity.
      * destruct (isspace y) eqn:Ey.
        -- cbn [app] in *.
           rewrite (words_then_space _ _ (a' ++ c :: b) Ex Ey).
           rewrite (words_then_space _ _ a' Ex Ey).
           rewrite (words_space _ a' Ey) in IH.
           rewrite (words_space _ (a' ++ c :: b) Ey) in IH.
           rewrite IH. reflexivity.
        -- cbn [app] in *.
           destruct (words_then_char _ _ a' Ex Ey) as (w & ws & W1 & W2).
           destruct (words_then_char _ _ (a' ++ c :: b) Ex Ey)
             as (w' & ws' & W1' & W2').
           rewrite W2, W2'. rewrite W1, W1' in IH.
           simpl in IH. injection IH as -> ->. reflexivity.
Qed.

Lemma words_app_gap (a g b : str) :
  blank g = true -> g <> [] -> words (a ++ g ++ b) = words a ++ words b.
Proof.
  intros Hg Hne. destruct g as [|c g']; [contradiction|].
  simpl in Hg. apply andb_prop in Hg as [Hc Hg'].
  cbn [app]. rewrite (words_app_space _ _ _ Hc).
  rewrite (words_blank_app _ _ Hg'). reflexivity.
Qed.

Lemma words_app_blank (a g : str) :
  blank g = true -> words (a ++ g) = words a.
Proof.
  intro Hg. destruct g as [|c g'].
  - rewrite app_nil_r. reflexivity.
  - simpl in Hg. apply andb_prop in Hg as [Hc Hg'].
    rewrite (words_app_space _ _ _ Hc), (words_blank _ Hg').
    apply app_nil_r.
Qed.

(** *** The normalizer as "split into words, join with one space" *)

Lemma rstrip_blank (s : str) : blank s = true -> rstrip s = [].
Proof.
  induction s as [|c t IH]; [reflexivity|].
  simpl. intro H. apply andb_prop in H as [Hc Ht].
  rewrite (IH Ht), Hc. reflexivity.
Qed.

Lemma join_cons (sep p : str) (q : str) (rest : list str) :
  join sep (p :: q :: rest) = p ++ sep ++ join sep (q :: rest).
Proof. reflexivity. Qed.

Lemma join_nonempty (sep w : str) (ws : list str) :
  w <> [] -> join sep (w :: ws) <> [].
Proof.
  intros Hw. destruct ws as [|q rest]; simpl; [exact Hw|].
  destruct w; [contradiction|discriminate].
Qed.

Lemma words_solid (s : str) : Forall solid (words s).
Proof.
  induction s as [|c t IH]; [constructor|].
  destruct (isspace c) eqn:Ec.
  - rewrite (words_space _ _ Ec). exact IH.
  - destruct t as [|d t'].
    + simpl. rewrite Ec. repeat constructor; [discriminate|exact Ec].
    + destruct (isspace d) eqn:Ed.
      * rewrite (words_then_space _ _ _ Ec Ed).
        rewrite (words_space _ _ Ed) in IH.
        constructor; [|exact IH].
        split; [discriminate|]. repeat constructor. exact Ec.
      * destruct (words_then_char _ _ t' Ec Ed) as (w & ws & W1 & W2).
        rewrite W2. rewrite W1 in IH. inversion IH as [|? ? [Hw1 Hw2] Hws]; subst.
        constructor; [|exact Hws].
        split; [discriminate|]. constructor; assumption.
Qed.

Lemma rstrip_sub_ws_words (s : str) :
  rstrip (sub_ws true s) = join [SP] (words s).
Proof.
  induction s as [|c t IH]; [reflexivity|].
  destruct (isspace c) eqn:Ec.
  - rewrite (words_space _ _ Ec). simpl. rewrite Ec. exact IH.
  - rewrite (sub_ws_solid_head true _ t Ec).
    destruct t as [|d t'].
    + simpl. rewrite Ec. reflexivity.
    + destruct (isspace d) eqn:Ed.
      * rewrite (words_then_space _ _ _ Ec Ed).
        rewrite (words_space _ _ Ed) in IH.
        simpl sub_ws. rewrite Ed.
        simpl sub_ws in IH. rewrite Ed in IH.
        cbn [rstrip]. rewrite IH.
        destruct (words t') as [|w ws] eqn:W.
        -- simpl. rewrite Ec. reflexivity.
        -- pose proof (words_solid t') as HS. rewrite W in HS.
           inversion HS as [|? ? [Hw _] _]; subst.
           rewrite join_cons.
           destruct (join [SP] (w :: ws)) eqn:J.
           ++ exfalso. exact (join_nonempty [SP] _ ws Hw J).
           ++ reflexivity.
      * destruct (words_then_char _ _ t' Ec Ed) as (w & ws & W1 & W2).
        rewrite W2. rewrite W1 in IH.
        rewrite (sub_ws_solid_head false _ t' Ed).
        rewrite (sub_ws_solid_head true _ t' Ed) in IH.
        cbn [rstrip] in *. rewrite IH.
        pose proof (words_solid (d :: t')) as HS. rewrite W1 in HS.
        inversion HS as [|? ? [Hw _] _]; subst.
        destruct (join [SP] (w :: ws)) eqn:J.
        -- exfalso. exact (join_nonempty [SP] _ ws Hw J).
        -- rewrite <- J. destruct ws; reflexivity.
Qed.

(** The normalizer splits the text, after the character replacements,
    into its words and joins them with single spaces. *)
Lemma clean_text_words (text : str) :
  clean_text text = join [SP] (words (map norm text)).
Proof.
  unfold clean_text. rewrite replacements_norm.
  unfold strip. rewrite lstrip_sub_ws. apply rstrip_sub_ws_words.
Qed.

Lemma words_of_solid (w : str) : solid w -> words w = [w].
Proof.
  intros [Hne Hall]. induction w as [|c t IH]; [contradiction|].
  inversion Hall as [|? ? Ec Ht]; subst.
  destruct t as [|d t'].
  - simpl. rewrite Ec. reflexivity.
  - inversion Ht as [|? ? Ed _]; subst.
    destruct (words_then_char _ _ t' Ec Ed) as (w & ws & W1 & W2).
    rewrite W2. rewrite IH in W1; [|discriminate|exact Ht].
    injection W1 as <- <-. reflexivity.
Qed.

Lemma words_join (ws : list str) :
  Forall solid ws -> words (join [SP] ws) = ws.
Proof.
  induction 1 as [|w ws Hw Hws IH]; [reflexivity|].
  destruct ws as [|q rest].
  - simpl. apply words_of_solid, Hw.
  - rewrite join_cons. cbn [app].
    rewrite (words_app_space _ _ _ isspace_SP), IH.
    rewrite (words_of_solid _ Hw). reflexivity.
Qed.

Lemma words_chars (P : char -> Prop) (s : str) :
  Forall P s -> Forall (Forall P) (words s).
Proof.
  induction 1 as [|c t Hc Ht IH]; [constructor|].
  destruct (isspace c) eqn:Ec.
  - rewrite (words_space _ _ Ec). exact IH.
  - destruct t as [|d t'].
    + simpl. rewrite Ec. repeat constructor. exact Hc.
    + destruct (isspace d) eqn:Ed.
      * rewrite (words_then_space _ _ _ Ec Ed).
        rewrite (words_space _ _ Ed) in IH.
        constructor; [repeat constructor; exact Hc|exact IH].
      * destruct (words_then_char _ _ t' Ec Ed) as (w & ws & W1 & W2).
        rewrite W2. rewrite W1 in IH.
        inversion IH; subst. constructor; [constructor|]; assumption.
Qed.

Lemma map_norm_join (ws : list str) :
  Forall (Forall (fun c => norm c = c)) ws ->
  map norm (join [SP] ws) = join [SP] ws.
Proof.
  induction 1 as [|w ws Hw Hws IH]; [reflexivity|].
  assert (Hmap : map norm w = w).
  { clear -Hw. induction Hw as [|c t Hc _ IHt]; [reflexivity|].
    simpl. rewrite Hc, IHt. reflexivity. }
  destruct ws as [|q rest]; [exact Hmap|].
  rewrite join_cons, !map_app, Hmap, IH. reflexivity.
Qed.

(** The words of a normalized text are the words it was built from. *)
Lemma words_norm_clean_text (s : str) :
  words (map norm (clean_text s)) = words (map norm s).
Proof.
  rewrite clean_text_words, map_norm_join.
  - apply words_join, words_solid.
  - apply words_chars. apply Forall_forall. intros c Hc.
    apply in_map_iff in Hc as (x & <- & _). apply norm_idempotent.
Qed.

(** C10. The text normalizer is idempotent: normalizing a normalized
    string changes nothing. *)
Theorem clean_text_idempotent (s : str) :
  clean_text (clean_text s) = clean_text s.
Proof.
  rewrite (clean_text_words (clean_text s)), words_norm_clean_text.
  symmetry. apply clean_text_words.
Qed.

(** ** Properties of the chunker *)

Lemma sum_Z_snoc (l : list Z) (x : Z) : sum_Z (l ++ [x]) = (sum_Z l + x)%Z.
Proof.
  unfold sum_Z. induction l as [|y l IH]; simpl; [lia|].
  rewrite IH. lia.
Qed.

Lemma estimate_sum_snoc (g : list str) (s : str) :
  estimate_sum (g ++ [s]) = (estimate_sum g + count_tokens s)%Z.
Proof. unfold estimate_sum. rewrite map_app. apply sum_Z_snoc. Qed.

Lemma within_singleton (max_tokens : Z) (s : str) : within max_tokens [s].
Proof.
  destruct (Z_le_gt_dec (count_tokens s) max_tokens) as [Hle|Hgt].
  - left. unfold estimate_sum, sum_Z. simpl. lia.
  - right. exists s. split; [reflexivity|exact Hgt].
Qed.

Lemma chunker_inv_init (max_tokens : Z) :
  chunker_inv max_tokens []
    {| chunks := []; current_chunk := []; current_length := 0 |} [].
Proof. constructor; simpl; auto. Qed.

Lemma chunker_inv_step (max_tokens : Z) (done : list str) (st : chunker)
    (gs : list (list str)) (sentence : str) :
  chunker_inv max_tokens done st gs ->
  exists gs',
    chunker_inv max_tokens (done ++ [sentence])
      (chunker_step max_tokens st sentence) gs'.
Proof.
  intros [Hc Ho Hn Hw Hcur Hlen]. unfold chunker_step.
  destruct (current_length st + count_tokens (clean_text sentence)
            >? max_tokens)%Z eqn:Over.
  - unfold flush. destruct (current_chunk st) as [|c cs] eqn:Cur.
    + exists gs. constructor; simpl.
      * exact Hc.
      * rewrite map_app. rewrite app_nil_r in Ho. rewrite Ho. reflexivity.
      * exact Hn.
      * exact Hw.
      * right. apply within_singleton.
      * unfold estimate_sum, sum_Z. simpl. lia.
    + exists (gs ++ [c :: cs]). constructor; simpl.
      * rewrite Hc, map_app. reflexivity.
      * rewrite concat_app, map_app. simpl. rewrite app_nil_r.
        rewrite <- app_assoc, (app_assoc (List.concat gs)), Ho. reflexivity.
      * apply Forall_app. split; [exact Hn|]. repeat constructor. discriminate.
      * apply Forall_app. split; [exact Hw|]. constructor; [|constructor].
        destruct Hcur as [Hcur|Hcur]; [discriminate|exact Hcur].
      * right. apply within_singleton.
      * unfold estimate_sum, sum_Z. simpl. lia.
  - exists gs. constructor; simpl.
    + exact Hc.
    + rewrite map_app, app_assoc, Ho. reflexivity.
    + exact Hn.
    + exact Hw.
    + right. left. rewrite estimate_sum_snoc, <- Hlen.
      rewrite Z.gtb_ltb in Over. apply Z.ltb_ge in Over. exact Over.
    + rewrite estimate_sum_snoc, Hlen. reflexivity.
Qed.

Lemma chunker_inv_fold (max_tokens : Z) (sentences done : list str)
    (st : chunker) (gs : list (list str)) :
  chunker_inv max_tokens done st gs ->
  exists gs',
    chunker_inv max_tokens (done ++ sentences)
      (fold_left (chunker_step max_tokens) sentences st) gs'.
Proof.
  revert done st gs.
  induction sentences as [|s rest IH]; intros done st gs Hinv.
  - exists gs. rewrite app_nil_r. exact Hinv.
  - simpl. destruct (chunker_inv_step _ _ _ _ s Hinv) as (gs1 & H1).
    destruct (IH _ _ _ H1) as (gs2 & H2).
    exists gs2. rewrite <- app_assoc in H2. exact H2.
Qed.

(** The chunks are the space-joined groups of a partition of the cleaned
    sentences into non-empty runs, each within the budget by its running
    estimate or a lone sentence over the budget. *)
Lemma split_text_by_tokens_groups (text : str) (max_tokens : Z) :
  exists gs,
    split_text_by_tokens text max_tokens = map (join [SP]) gs
    /\ List.concat gs = map clean_text (sent_tokenize text)
    /\ Forall (fun g => g <> []) gs
    /\ Forall (within max_tokens) gs.
Proof.
  unfold split_text_by_tokens.
  destruct (chunker_inv_fold _ (sent_tokenize text) _ _ _
              (chunker_inv_init max_tokens))
    as (gs & [Hc Ho Hn Hw Hcur Hlen]).
  simpl in Ho. unfold flush.
  destruct (current_chunk _) as [|c cs] eqn:Cur.
  - exists gs. rewrite app_nil_r in Ho. auto.
  - exists (gs ++ [c :: cs]). repeat split.
    + rewrite Hc, map_app. reflexivity.
    + rewrite concat_app. simpl. rewrite app_nil_r. exact Ho.
    + apply Forall_app. split; [exact Hn|]. repeat constructor. discriminate.
    + apply Forall_app. split; [exact Hw|]. constructor; [|constructor].
      destruct Hcur as [Hcur|Hcur]; [discriminate|exact Hcur].
Qed.

(** C2, amended. Every chunk is the space-joined group of consecutive
    cleaned sentences whose token estimates sum to at most the budget, or a
    single sentence whose own estimate is over the budget; the groups are
    all the sentences, in order, so none is discarded. *)
Theorem chunk_running_estimates_bounded (text : str) (max_tokens : Z) :
  exists gs,
    split_text_by_tokens text max_tokens = map (join [SP]) gs
    /\ List.concat gs = map clean_text (sent_tokenize text)
    /\ Forall
         (fun g =>
            g <> []
            /\ ((sum_Z (map count_tokens g) <= max_tokens)%Z
                \/ exists s, g = [s] /\ (count_tokens s > max_tokens)%Z))
         gs.
Proof.
  destruct (split_text_by_tokens_groups text max_tokens)
    as (gs & Hc & Hcat & Hne & Hw).
  exists gs. split; [exact Hc|]. split; [exact Hcat|].
  apply Forall_forall. intros g Hg. split.
  - exact (proj1 (Forall_forall _ _) Hne g Hg).
  - exact (proj1 (Forall_forall _ _) Hw g Hg).
Qed.

Lemma join_groups_nonempty (gs : list (list str)) :
  Forall (fun g => g <> []) gs ->
  Forall (Forall (fun s => s <> [])) gs ->
  Forall (fun chunk => chunk <> []) (map (join [SP]) gs).
Proof.
  induction 1 as [|g gs Hg Hgs IH]; intro Hall; [constructor|].
  inversion Hall as [|? ? Hs Hrest]; subst.
  simpl. constructor; [|exact (IH Hrest)].
  destruct g as [|s g']; [contradiction|].
  inversion Hs; subst. apply join_nonempty. assumption.
Qed.

Lemma Forall_concat_inv {A} (P : A -> Prop) (ls : list (list A)) :
  Forall P (List.concat ls) -> Forall (Forall P) ls.
Proof.
  induction ls as [|l ls IH]; simpl; intro H; [constructor|].
  apply Forall_app in H as [H1 H2]. constructor; auto.
Qed.

(** C8. The chunker on the empty string yields no chunk; every chunk is
    a non-empty string; the chunks are the sentences in their original
    order, grouped.  The sentence tokenizer is assumed to yield nothing on
    the empty string and no sentence that is empty once cleaned. *)
Theorem split_text_by_tokens_nonempty_ordered (text : str) (max_tokens : Z)
    (Hempty : sent_tokenize [] = [])
    (Hsentences :
       Forall (fun sentence => clean_text sentence <> []) (sent_tokenize text)) :
  split_text_by_tokens [] max_tokens = []
  /\ Forall (fun chunk => chunk <> []) (split_text_by_tokens text max_tokens)
  /\ exists gs,
       split_text_by_tokens text max_tokens = map (join [SP]) gs
       /\ List.concat gs = map clean_text (sent_tokenize text).
Proof.
  split; [|split].
  - unfold split_text_by_tokens. rewrite Hempty. reflexivity.
  - destruct (split_text_by_tokens_groups text max_tokens)
      as (gs & -> & Hcat & Hne & _).
    apply join_groups_nonempty; [exact Hne|].
    apply Forall_concat_inv. rewrite Hcat.
    apply Forall_map. exact Hsentences.
  - destruct (split_text_by_tokens_groups text max_tokens)
      as (gs & Hc & Hcat & _).
    exists gs. split; assumption.
Qed.

(** *** Rejoining the chunks *)

Lemma blank_map_norm (g : str) : blank (map norm g) = blank g.
Proof.
  induction g as [|c t IH]; [reflexivity|].
  unfold blank in *. simpl. rewrite isspace_norm, IH. reflexivity.
Qed.

Lemma normalized_words_join (xs : list str) :
  normalized_words (join [SP] xs) = List.concat (map normalized_words xs).
Proof.
  unfold normalized_words.
  induction xs as [|p rest IH]; [reflexivity|].
  destruct rest as [|q rest'].
  - simpl. rewrite app_nil_r. reflexivity.
  - rewrite join_cons, map_app. cbn [app map].
    rewrite norm_fixes_SP, (words_app_space _ _ _ isspace_SP), IH.
    reflexivity.
Qed.

Lemma normalized_words_segmented (text : str) (sentences : list str) :
  Segmented text sentences ->
  normalized_words text = List.concat (map normalized_words sentences).
Proof.
  unfold normalized_words.
  induction 1 as [gap Hgap|s gap text ss Hgap Hlast Hseg IH].
  - apply words_blank. rewrite blank_map_norm. exact Hgap.
  - rewrite !map_app. cbn [map List.concat].
    destruct gap as [|c gap'].
    + rewrite (Hlast eq_refl) in *. inversion Hseg; subst.
      simpl. rewrite app_nil_r. apply words_app_blank.
      rewrite blank_map_norm. assumption.
    + rewrite words_app_gap, IH.
      * reflexivity.
      * rewrite blank_map_norm. exact Hgap.
      * discriminate.
Qed.

Lemma concat_map_concat {A B} (f : A -> list B) (ls : list (list A)) :
  List.concat (map (fun l => List.concat (map f l)) ls)
  = List.concat (map f (List.concat ls)).
Proof.
  induction ls as [|l ls IH]; [reflexivity|].
  simpl. rewrite map_app, concat_app, IH. reflexivity.
Qed.

(** C3, amended. When the sentences the tokenizer returns are separated
    in the text by whitespace, joining the chunks with single spaces and
    normalizing again gives the normalized paragraph text. *)
Theorem chunks_rejoin_to_clean_text (text : str) (max_tokens : Z)
    (Hseg : Segmented text (sent_tokenize text)) :
  clean_text (join [SP] (split_text_by_tokens text max_tokens))
  = clean_text text.
Proof.
  rewrite !clean_text_words. f_equal.
  change (normalized_words
            (join [SP] (split_text_by_tokens text max_tokens))
          = normalized_words text).
  destruct (split_text_by_tokens_groups text max_tokens)
    as (gs & -> & Hcat & _).
  rewrite normalized_words_join, map_map.
  rewrite (map_ext _ _ (fun g => normalized_words_join g)).
  rewrite concat_map_concat, Hcat, map_map.
  rewrite (map_ext _ _ words_norm_clean_text).
  symmetry. apply normalized_words_segmented, Hseg.
Qed.

(** ** Properties of runs *)

Lemma bind_run {A B} (m : M A) (k : A -> M B) (w : World) :
  bind m k w =
  (value_of (k (value_of (m w)) (world_of (m w))),
   trace_of (m w) ++ trace_of (k (value_of (m w)) (world_of (m w))),
   world_of (k (value_of (m w)) (world_of (m w)))).
Proof.
  unfold bind, value_of, trace_of, world_of.
  destruct (m w) as [[a t1] w1]. simpl.
  destruct (k a w1) as [[b t2] w2]. reflexivity.
Qed.

Lemma trace_bind {A B} (m : M A) (k : A -> M B) (w : World) :
  trace_of (bind m k w)
  = trace_of (m w) ++ trace_of (k (value_of (m w)) (world_of (m w))).
Proof. rewrite bind_run. reflexivity. Qed.

Lemma value_bind {A B} (m : M A) (k : A -> M B) (w : World) :
  value_of (bind m k w) = value_of (k (value_of (m w)) (world_of (m w))).
Proof. rewrite bind_run. reflexivity. Qed.

Lemma world_bind {A B} (m : M A) (k : A -> M B) (w : World) :
  world_of (bind m k w) = world_of (k (value_of (m w)) (world_of (m w))).
Proof. rewrite bind_run. reflexivity. Qed.

Lemma trace_ret {A} (a : A) (w : World) : trace_of (ret a w) = [].
Proof. reflexivity. Qed.

Lemma value_ret {A} (a : A) (w : World) : value_of (ret a w) = a.
Proof. reflexivity. Qed.

Lemma world_ret {A} (a : A) (w : World) : world_of (ret a w) = w.
Proof. reflexivity. Qed.

Lemma trace_emit (e : event) (w : World) : trace_of (emit e w) = [e].
Proof. reflexivity. Qed.

Lemma world_emit (e : event) (w : World) : world_of (emit e w) = w.
Proof. reflexivity. Qed.

Lemma trace_call_chat (model_name prompt_content : str) (w : World) :
  trace_of (call_chat model_name prompt_content w)
  = [Chat model_name prompt_content].
Proof.
  unfold call_chat, trace_of.
  destruct (chat model_name prompt_content w). reflexivity.
Qed.

Lemma value_call_chat (model_name prompt_content : str) (w : World) :
  value_of (call_chat model_name prompt_content w)
  = fst (chat model_name prompt_content w).
Proof.
  unfold call_chat, value_of.
  destruct (chat model_name prompt_content w). reflexivity.
Qed.

Lemma world_call_chat (model_name prompt_content : str) (w : World) :
  world_of (call_chat model_name prompt_content w)
  = snd (chat model_name prompt_content w).
Proof.
  unfold call_chat, world_of.
  destruct (chat model_name prompt_content w). reflexivity.
Qed.

Lemma traces_ret {A} (P : event -> Prop) (a : A) : traces P (ret a).
Proof. intro w. constructor. Qed.

Lemma traces_emit (P : event -> Prop) (e : event) : P e -> traces P (emit e).
Proof. intros H w. repeat constructor. exact H. Qed.

Lemma traces_call_chat (P : event -> Prop) (model_name prompt_content : str) :
  P (Chat model_name prompt_content) ->
  traces P (call_chat model_name prompt_content).
Proof.
  intros H w. unfold call_chat, trace_of.
  destruct (chat model_name prompt_content w). repeat constructor. exact H.
Qed.

Lemma traces_bind {A B} (P : event -> Prop) (m : M A) (k : A -> M B) :
  traces P m -> (forall a, traces P (k a)) -> traces P (bind m k).
Proof.
  intros Hm Hk w. rewrite trace_bind.
  apply Forall_app. split; [apply Hm|apply Hk].
Qed.

(** *** The retry loop *)

Lemma retry_traces (P : event -> Prop) (max_retries : Z) (delay : Q)
    (model_name prompt_content : str) :
  P (Chat model_name prompt_content) ->
  (forall attempt e, P (LogAttemptFailed attempt e)) ->
  P (LogSkippingChunk max_retries) ->
  P (Sleep delay) ->
  forall remaining attempt,
    traces P (retry remaining attempt max_retries delay
                model_name prompt_content).
Proof.
  intros Hchat Hlog Hskip Hsleep.
  induction remaining as [|n IH]; intro attempt; simpl.
  - apply traces_bind; [apply traces_emit, Hskip|].
    intro. apply traces_ret.
  - apply traces_bind; [apply traces_call_chat, Hchat|].
    intros [[| |content]|e].
    + apply IH.
    + apply IH.
    + apply traces_ret.
    + apply traces_bind; [apply traces_emit, Hlog|]. intro.
      apply traces_bind; [apply traces_emit, Hsleep|]. intro.
      apply IH.
Qed.

(** The loop calls the backend at most once per turn. *)
Lemma retry_attempts_bounded (max_retries : Z) (delay : Q)
    (model_name prompt_content : str) (remaining : nat) :
  forall attempt w,
    (List.length
       (filter is_chat
          (trace_of (retry remaining attempt max_retries delay
                       model_name prompt_content w)))
     <= remaining)%nat.
Proof.
  induction remaining as [|n IH]; intros attempt w.
  - simpl. apply Nat.le_refl.
  - cbn [retry]. rewrite trace_bind, trace_call_chat.
    cbn [app filter is_chat List.length].
    destruct (value_of (call_chat model_name prompt_content w))
      as [[| |content]|e].
    + specialize (IH (attempt + 1)%Z
                    (world_of (call_chat model_name prompt_content w))).
      lia.
    + specialize (IH (attempt + 1)%Z
                    (world_of (call_chat model_name prompt_content w))).
      lia.
    + simpl. lia.
    + rewrite !trace_bind, !trace_emit, !world_emit.
      cbn [app filter is_chat].
      specialize (IH (attempt + 1)%Z
                    (world_of (call_chat model_name prompt_content w))).
      lia.
Qed.

(** A well-formed answer ends the loop at once, with the trimmed text. *)
Lemma retry_success (remaining : nat) (attempt max_retries : Z) (delay : Q)
    (model_name prompt_content content : str) (w : World) :
  fst (chat model_name prompt_content w) = Returns (MessageContent content) ->
  retry (S remaining) attempt max_retries delay model_name prompt_content w
  = (Some (strip content), [Chat model_name prompt_content],
     snd (chat model_name prompt_content w)).
Proof.
  intro H. cbn [retry]. rewrite bind_run.
  rewrite value_call_chat, trace_call_chat, world_call_chat, H.
  reflexivity.
Qed.

(** An exception of the backend is logged, the delay is waited, and the
    loop goes on with one turn less. *)
Lemma retry_exception (remaining : nat) (attempt max_retries : Z) (delay : Q)
    (model_name prompt_content e : str) (w : World) :
  fst (chat model_name prompt_content w) = Raises e ->
  let next :=
    retry remaining (attempt + 1) max_retries delay model_name
      prompt_content (snd (chat model_name prompt_content w)) in
  retry (S remaining) attempt max_retries delay model_name prompt_content w
  = (value_of next,
     [Chat model_name prompt_content;
      LogAttemptFailed (attempt + 1) e; Sleep delay] ++ trace_of next,
     world_of next).
Proof.
  intro H. cbn [retry]. rewrite bind_run.
  rewrite value_call_chat, trace_call_chat, world_call_chat, H.
  rewrite !bind_run. reflexivity.
Qed.

(** An answer without the expected keys raises nothing: the loop goes on
    at once, and neither logs nor waits. *)
Lemma retry_malformed (remaining : nat) (attempt max_retries : Z) (delay : Q)
    (model_name prompt_content : str) (w : World) :
  fst (chat model_name prompt_content w) = Returns NoMessage
  \/ fst (chat model_name prompt_content w) = Returns MessageWithoutContent ->
  let next :=
    retry remaining (attempt + 1) max_retries delay model_name
      prompt_content (snd (chat model_name prompt_content w)) in
  retry (S remaining) attempt max_retries delay model_name prompt_content w
  = (value_of next, Chat model_name prompt_content :: trace_of next,
     world_of next).
Proof.
  intro H. cbn [retry]. rewrite bind_run.
  rewrite value_call_chat, trace_call_chat, world_call_chat.
  destruct H as [-> | ->]; reflexivity.
Qed.

(** When every answer lacks the expected keys, the whole loop is the calls
    one after the other and then the log of the skip. *)
Lemma retry_all_malformed (max_retries : Z) (delay : Q)
    (model_name prompt_content : str)
    (Hmalformed : forall w,
       fst (chat model_name prompt_content w) = Returns NoMessage
       \/ fst (chat model_name prompt_content w) = Returns MessageWithoutContent)
    (remaining : nat) :
  forall attempt w,
    trace_of (retry remaining attempt max_retries delay
                model_name prompt_content w)
    = repeat (Chat model_name prompt_content) remaining
        ++ [LogSkippingChunk max_retries].
Proof.
  induction remaining as [|n IH]; intros attempt w; [reflexivity|].
  rewrite (retry_malformed _ _ _ _ _ _ _ (Hmalformed w)).
  unfold trace_of at 1. cbn [fst snd repeat app]. rewrite IH. reflexivity.
Qed.

(** When no call gives a well-formed answer the loop runs all its turns,
    logs that the chunk is skipped, and appends nothing. *)
Lemma retry_exhausted (max_retries : Z) (delay : Q)
    (model_name prompt_content : str)
    (Hfail : forall w content,
       fst (chat model_name prompt_content w)
       <> Returns (MessageContent content))
    (remaining : nat) :
  forall attempt w,
    let r := retry remaining attempt max_retries delay
               model_name prompt_content w in
    value_of r = None
    /\ List.length (filter is_chat (trace_of r)) = remaining
    /\ exists before, trace_of r = before ++ [LogSkippingChunk max_retries].
Proof.
  induction remaining as [|n IH]; intros attempt w; cbn zeta.
  - repeat split. exists []. reflexivity.
  - destruct (fst (chat model_name prompt_content w)) as [[| |content]|e] eqn:E.
    + rewrite (retry_malformed _ _ _ _ _ _ _ (or_introl E)).
      destruct (IH (attempt + 1)%Z (snd (chat model_name prompt_content w)))
        as (Hv & Hn & before & Ht).
      repeat split; [exact Hv|cbn; rewrite Hn; reflexivity|].
      exists (Chat model_name prompt_content :: before).
      cbn. rewrite Ht. reflexivity.
    + rewrite (retry_malformed _ _ _ _ _ _ _ (or_intror E)).
      destruct (IH (attempt + 1)%Z (snd (chat model_name prompt_content w)))
        as (Hv & Hn & before & Ht).
      repeat split; [exact Hv|cbn; rewrite Hn; reflexivity|].
      exists (Chat model_name prompt_content :: before).
      cbn. rewrite Ht. reflexivity.
    + exfalso. exact (Hfail w content E).
    + rewrite (retry_exception _ _ _ _ _ _ _ _ E).
      destruct (IH (attempt + 1)%Z (snd (chat model_name prompt_content w)))
        as (Hv & Hn & before & Ht).
      repeat split; [exact Hv|cbn; rewrite Hn; reflexivity|].
      exists (Chat model_name prompt_content
                :: LogAttemptFailed (attempt + 1) e :: Sleep delay :: before).
      cbn. rewrite Ht. reflexivity.
Qed.

(** A chunk whose attempts are exhausted adds nothing to the collected
    translations, and the remaining chunks are still processed. *)
Lemma exhausted_chunk_skipped (chunk : str) (rest translated_chunks : list str)
    (target_language model_name : str) (prompt_template : Template)
    (genre title author : str) (max_retries : Z) (delay : Q) (w : World) :
  strip chunk <> [] ->
  let attempts :=
    retry (Z.to_nat max_retries) 0 max_retries delay model_name
      (render prompt_template
         (prompt_context target_language (strip chunk) genre title author))
      w in
  value_of attempts = None ->
  let others :=
    translate_chunks rest translated_chunks target_language model_name
      prompt_template genre title author max_retries delay
      (world_of attempts) in
  translate_chunks (chunk :: rest) translated_chunks target_language
    model_name prompt_template genre title author max_retries delay w
  = (value_of others, trace_of attempts ++ trace_of others, world_of others).
Proof.
  intros Hne attempts Hnone others. cbn [translate_chunks].
  destruct (strip chunk) as [|c s] eqn:S; [contradiction|].
  cbn [truthy]. rewrite bind_run. fold attempts. rewrite Hnone. reflexivity.
Qed.

(** *** Events of a paragraph's translation *)

Lemma translate_chunks_traces (P : event -> Prop)
    (target_language model_name : str) (prompt_template : Template)
    (genre title author : str) (max_retries : Z) (delay : Q) :
  (forall chunk,
     P (Chat model_name
          (render prompt_template
             (prompt_context target_language chunk genre title author)))) ->
  (forall attempt e, P (LogAttemptFailed attempt e)) ->
  P (LogSkippingChunk max_retries) ->
  P (Sleep delay) ->
  forall todo translated_chunks,
    traces P (translate_chunks todo translated_chunks target_language
                model_name prompt_template genre title author
                max_retries delay).
Proof.
  intros Hchat Hlog Hskip Hsleep.
  induction todo as [|chunk rest IH]; intro acc; cbn [translate_chunks].
  - apply traces_ret.
  - destruct (truthy (strip chunk)); [|apply IH].
    apply traces_bind.
    + apply retry_traces; auto.
    + intro r. apply IH.
Qed.

Lemma translate_text_traces (P : event -> Prop)
    (text target_language model_name : str) (token_limit : Z)
    (prompt_template : Template) (genre title author : str)
    (max_retries : Z) (delay : Q) :
  (forall chunk,
     P (Chat model_name
          (render prompt_template
             (prompt_context target_language chunk genre title author)))) ->
  (forall attempt e, P (LogAttemptFailed attempt e)) ->
  P (LogSkippingChunk max_retries) ->
  P (Sleep delay) ->
  traces P (translate_text text target_language model_name token_limit
              prompt_template genre title author max_retries delay).
Proof.
  intros Hchat Hlog Hskip Hsleep. unfold translate_text.
  destruct (truthy (strip text)); [|apply traces_ret].
  apply traces_bind.
  - apply translate_chunks_traces; auto.
  - intro. apply traces_ret.
Qed.

(** *** The Document Walker *)

Lemma filter_none {A} (f : A -> bool) (l : list A) :
  Forall (fun x => f x = false) l -> filter f l = [].
Proof.
  induction 1 as [|x l Hx _ IH]; [reflexivity|].
  simpl. rewrite Hx. exact IH.
Qed.

Lemma notifications_range (n : nat) :
  forall first total current total',
    In (ProgressCallback current total') (notifications n first total) ->
    (first <= current < first + Z.of_nat n)%Z /\ total' = total.
Proof.
  induction n as [|n IH]; intros first total current total' Hin.
  - contradiction.
  - cbn [notifications] in Hin. destruct Hin as [Heq|Hin].
    + injection Heq as <- <-. split; [lia|reflexivity].
    + apply IH in Hin as [Hr Ht]. split; [lia|exact Ht].
Qed.

Lemma notifications_app (n m : nat) :
  forall first total,
    notifications n first total
      ++ notifications m (first + Z.of_nat n) total
    = notifications (n + m) first total.
Proof.
  induction n as [|n IH]; intros first total.
  - cbn. rewrite Z.add_0_r. reflexivity.
  - cbn [notifications plus app]. f_equal. rewrite <- IH.
    do 2 f_equal. lia.
Qed.

Lemma count_in_items_visited (items : list item) :
  count_in_items items = Z.of_nat (List.length (visited items)).
Proof.
  unfold count_in_items.
  assert (H : forall acc,
    fold_left
      (fun total_paragraphs it =>
         match get_type it with
         | ITEM_DOCUMENT =>
             (total_paragraphs + Z.of_nat (List.length (find_all_p it)))%Z
         | ITEM_OTHER => total_paragraphs
         end) items acc
    = (acc + Z.of_nat (List.length (visited items)))%Z).
  { induction items as [|it rest IH]; intro acc; [simpl; lia|].
    cbn [fold_left visited flat_map]. rewrite IH, length_app.
    fold (visited rest).
    destruct (get_type it); cbn [List.length]; lia. }
  rewrite H. reflexivity.
Qed.

Lemma raw_blank_get_text (p : p_tag) :
  blank (raw_text p) = true -> get_text p = [].
Proof.
  unfold raw_text, get_text.
  induction (flat_map all_strings (contents p)) as [|s l IH];
    [reflexivity|].
  cbn [List.concat map filter]. unfold blank in *. rewrite forallb_app.
  intro H. apply andb_prop in H as [Hs Hl].
  assert (Hstrip : strip s = []).
  { unfold strip. clear -Hs. induction s as [|c t IHt]; [reflexivity|].
    simpl in *. apply andb_prop in Hs as [Hc Ht]. rewrite Hc. exact (IHt Ht). }
  rewrite Hstrip. exact (IH Hl).
Qed.

Section WalkProperties.

Variables (language model_name : str) (token_limit : Z)
          (prompt_template : Template) (progress_callback : bool)
          (genre : str) (bilingual : bool)
          (final_title final_author : str) (total_paragraphs : Z).

Lemma trace_report_progress (current_count : Z) (w : World) :
  trace_of (report_progress progress_callback total_paragraphs
              current_count w)
  = if progress_callback
    then [ProgressCallback current_count total_paragraphs] else [].
Proof. unfold report_progress. destruct progress_callback; reflexivity. Qed.

Lemma world_report_progress (current_count : Z) (w : World) :
  world_of (report_progress progress_callback total_paragraphs
              current_count w) = w.
Proof. unfold report_progress. destruct progress_callback; reflexivity. Qed.

Lemma translate_paragraph_traces (P : event -> Prop) (p : p_tag) :
  (forall chunk,
     P (Chat model_name
          (render prompt_template
             (prompt_context language chunk genre final_title
                final_author)))) ->
  (forall attempt e, P (LogAttemptFailed attempt e)) ->
  (forall max_retries, P (LogSkippingChunk max_retries)) ->
  (forall delay, P (Sleep delay)) ->
  traces P (translate_paragraph language model_name token_limit
              prompt_template genre bilingual final_title final_author p).
Proof.
  intros Hchat Hlog Hskip Hsleep. unfold translate_paragraph.
  destruct (truthy (clean_text (get_text p))); [|apply traces_ret].
  apply traces_bind.
  - apply translate_text_traces; auto.
  - intro. apply traces_ret.
Qed.



Lemma translate_paragraph_no_progress (p : p_tag) (w : World) :
  filter is_progress
    (trace_of (translate_paragraph language model_name token_limit
                 prompt_template genre bilingual final_title
                 final_author p w)) = [].
Proof.
  apply filter_none.
  apply (translate_paragraph_traces (fun e => is_progress e = false));
    reflexivity.
Qed.

(** The walk of a part's paragraphs: one notification per tag, counting
    up from the counter's value, and the counter advanced by their
    number. *)
Lemma walk_paragraphs_progress (paragraphs : list p_tag) :
  forall current_count w,
    let r := walk_paragraphs language model_name token_limit
               prompt_template progress_callback genre bilingual
               final_title final_author total_paragraphs
               paragraphs current_count w in
    filter is_progress (trace_of r)
    = (if progress_callback
       then notifications (List.length paragraphs)
              (current_count + 1) total_paragraphs
       else [])
    /\ snd (value_of r)
       = (current_count + Z.of_nat (List.length paragraphs))%Z.
Proof.
  induction paragraphs as [|p rest IH]; intros current_count w; cbn zeta.
  - split; [destruct progress_callback; reflexivity|cbn; lia].
  - cbn [walk_paragraphs].
    rewrite ?trace_bind, ?value_bind, ?world_bind, ?filter_app.
    rewrite translate_paragraph_no_progress.
    rewrite world_report_progress, trace_report_progress.
    destruct (IH (current_count + 1)%Z
                (world_of
                   (translate_paragraph language model_name token_limit
                      prompt_template genre bilingual final_title
                      final_author p w))) as [Ht Hv].
    rewrite Ht, trace_ret, value_ret. cbn [snd]. rewrite Hv. split.
    + destruct progress_callback; cbn; rewrite ?app_nil_r; reflexivity.
    + cbn [List.length]. lia.
Qed.

Lemma walk_items_progress (items : list item) :
  forall current_count w,
    let r := walk_items language model_name token_limit
               prompt_template progress_callback genre bilingual
               final_title final_author total_paragraphs
               items current_count w in
    filter is_progress (trace_of r)
    = (if progress_callback
       then notifications (List.length (visited items))
              (current_count + 1) total_paragraphs
       else [])
    /\ snd (value_of r)
       = (current_count + Z.of_nat (List.length (visited items)))%Z.
Proof.
  induction items as [|it rest IH]; intros current_count w; cbn zeta.
  - split; [destruct progress_callback; reflexivity|cbn; lia].
  - cbn [walk_items visited flat_map]. fold (visited rest).
    rewrite length_app.
    destruct (get_type it).
    + rewrite ?trace_bind, ?value_bind, ?world_bind, ?filter_app.
      rewrite trace_ret, value_ret. cbn [snd filter].
      destruct (walk_paragraphs_progress (find_all_p it) current_count w)
        as [Ht Hv].
      cbn zeta in Ht, Hv. rewrite Ht, Hv.
      match goal with
      | |- context [walk_items _ _ _ _ _ _ _ _ _ _ rest ?c ?w'] =>
          destruct (IH c w') as [Ht' Hv']
      end.
      rewrite Ht', Hv', app_nil_r.
      split; [|rewrite Nat2Z.inj_add; apply eq_sym, Z.add_assoc].
      destruct progress_callback; [|reflexivity].
      rewrite <- notifications_app. do 2 f_equal.
      rewrite <- !Z.add_assoc. f_equal. apply Z.add_comm.
    + rewrite ?trace_bind, ?value_bind, ?world_bind, ?filter_app.
      rewrite trace_ret, value_ret. cbn [snd filter List.length app].
      destruct (IH current_count w) as [Ht' Hv'].
      rewrite Ht', Hv', app_nil_r. split; reflexivity.
Qed.

(** C9. A Text Unit whose text is empty or whitespace-only is left as
    it is, costs no backend call (no event at all), and the walk goes
    on with the counter advanced by one and, when a callback is
    supplied, one notification for it. *)
Theorem blank_paragraph_left_untouched (p : p_tag) (rest : list p_tag)
    (current_count : Z) (w : World)
    (Hblank : blank (raw_text p) = true) :
  translate_paragraph language model_name token_limit prompt_template
    genre bilingual final_title final_author p w = (p, [], w)
  /\ let after :=
       walk_paragraphs language model_name token_limit prompt_template
         progress_callback genre bilingual final_title final_author
         total_paragraphs rest (current_count + 1) w in
     walk_paragraphs language model_name token_limit prompt_template
       progress_callback genre bilingual final_title final_author
       total_paragraphs (p :: rest) current_count w
     = ((p :: fst (value_of after), snd (value_of after)),
        (if progress_callback
         then [ProgressCallback (current_count + 1) total_paragraphs]
         else []) ++ trace_of after,
        world_of after).
Proof.
  assert (Hp : translate_paragraph language model_name token_limit
                 prompt_template genre bilingual final_title final_author
                 p w = (p, [], w)).
  { unfold translate_paragraph.
    rewrite (raw_blank_get_text _ Hblank). reflexivity. }
  split; [exact Hp|]. cbn zeta. cbn [walk_paragraphs].
  unfold bind at 1. rewrite Hp.
  unfold report_progress, bind, emit, ret, value_of, trace_of, world_of.
  destruct progress_callback;
    destruct (walk_paragraphs _ _ _ _ _ _ _ _ _ _ rest _ w)
      as [[[ps c] t] w'];
    cbn [fst snd app]; rewrite app_nil_r; reflexivity.
Qed.

(** The content a paragraph is given in bilingual mode. *)
Lemma translate_paragraph_bilingual (p : p_tag) (w : World) :
  bilingual = true ->
  value_of (translate_paragraph language model_name token_limit
              prompt_template genre bilingual final_title final_author
              p w)
  = if truthy (clean_text (get_text p))
    then {| contents :=
              [Tag "[document]"
                 (html_parser
                    (lit "ORIGINAL: " ++ clean_text (get_text p)
                       ++ lit "<br/><br/>" ++ lit "<i>TRANSLATION: "
                       ++ value_of
                            (translate_text (clean_text (get_text p))
                               language model_name token_limit
                               prompt_template genre final_title
                               final_author default_max_retries
                               default_delay w)
                       ++ lit "</i>"))] |}
    else p.
Proof.
  intros ->. unfold translate_paragraph.
  destruct (truthy (clean_text (get_text p))); [|reflexivity].
  rewrite value_bind, value_ret. reflexivity.
Qed.

End WalkProperties.

(** *** One sentence, one chunk, one well-formed answer *)

Lemma split_single_sentence (text sentence : str) (max_tokens : Z) :
  sent_tokenize text = [sentence] ->
  split_text_by_tokens text max_tokens = [clean_text sentence].
Proof.
  intro H. unfold split_text_by_tokens. rewrite H.
  cbn [fold_left]. unfold chunker_step.
  destruct (_ >? max_tokens)%Z; reflexivity.
Qed.

Lemma translate_text_one_chunk (text target_language model_name : str)
    (token_limit : Z) (prompt_template : Template)
    (genre title author : str) (max_retries : Z) (delay : Q)
    (sentence content : str) (w : World) :
  truthy (strip text) = true ->
  sent_tokenize (strip text) = [sentence] ->
  truthy (strip (clean_text sentence)) = true ->
  (0 < max_retries)%Z ->
  let prompt_content :=
    render prompt_template
      (prompt_context target_language (strip (clean_text sentence)) genre
         title author) in
  fst (chat model_name prompt_content w) = Returns (MessageContent content) ->
  translate_text text target_language model_name token_limit
    prompt_template genre title author max_retries delay w
  = (strip content, [Chat model_name prompt_content],
     snd (chat model_name prompt_content w)).
Proof.
  intros Htext Hsent Hchunk Hpos prompt_content Hanswer.
  unfold translate_text. rewrite Htext.
  rewrite (split_single_sentence _ _ _ Hsent).
  cbn [translate_chunks]. rewrite Hchunk. fold prompt_content.
  destruct (Z.to_nat max_retries) as [|k] eqn:K; [lia|].
  rewrite !bind_run.
  rewrite (retry_success _ _ _ _ _ _ _ _ Hanswer).
  reflexivity.
Qed.

(** C7. In bilingual mode a paragraph whose cleaned text is [Bonjour],
    translated by the backend as [Hello], is given the content parsed from
    ORIGINAL: Bonjour<br/><br/><i>TRANSLATION: Hello</i>; in general the
    markup is the labelled original, the separator, and the translation in
    the italic translation marker. *)
Theorem bilingual_bonjour_hello (language model_name : str) (token_limit : Z)
    (prompt_template : Template) (genre final_title final_author : str)
    (p : p_tag) (w : World)
    (Hparagraph : clean_text (get_text p) = lit "Bonjour")
    (Hsentence : sent_tokenize (lit "Bonjour") = [lit "Bonjour"])
    (Hanswer : forall prompt_content,
       fst (chat model_name prompt_content w)
       = Returns (MessageContent (lit "Hello"))) :
  value_of (translate_paragraph language model_name token_limit
              prompt_template genre true final_title final_author p w)
  = {| contents :=
         [Tag "[document]"
            (html_parser
               (lit "ORIGINAL: Bonjour<br/><br/><i>TRANSLATION: Hello</i>"))] |}
  /\ forall (q : p_tag) (w' : World),
       value_of (translate_paragraph language model_name token_limit
                   prompt_template genre true final_title final_author q w')
       = if truthy (clean_text (get_text q))
         then {| contents :=
                   [Tag "[document]"
                      (html_parser
                         (lit "ORIGINAL: " ++ clean_text (get_text q)
                            ++ lit "<br/><br/>" ++ lit "<i>TRANSLATION: "
                            ++ value_of
                                 (translate_text (clean_text (get_text q))
                                    language model_name token_limit
                                    prompt_template genre final_title
                                    final_author default_max_retries
                                    default_delay w')
                            ++ lit "</i>"))] |}
         else q.
Proof.
  split.
  - rewrite translate_paragraph_bilingual by reflexivity.
    rewrite Hparagraph.
    rewrite (translate_text_one_chunk (lit "Bonjour") language model_name
               token_limit prompt_template genre final_title final_author
               default_max_retries default_delay (lit "Bonjour")
               (lit "Hello") w);
      [reflexivity|reflexivity|exact Hsentence|reflexivity|reflexivity|].
    apply Hanswer.
  - intros q w'. apply translate_paragraph_bilingual. reflexivity.
Qed.

(** *** Whole runs *)


Lemma count_paragraphs_in_book_visited (input_path : str) (b : book) :
  read_epub input_path = Some b ->
  count_paragraphs_in_book input_path
  = Some (Z.of_nat (List.length (visited (get_items b)))).
Proof.
  intro H. unfold count_paragraphs_in_book. rewrite H.
  rewrite count_in_items_visited. reflexivity.
Qed.

Lemma translate_book_run
    (input_path output_path language model_name : str) (token_limit : Z)
    (template_path : str) (progress_callback : bool) (genre : str)
    (bilingual : bool) (override_title override_author : str) (w : World)
    (prompt_template : Template) (b : book) :
  load_prompt_template template_path = Some prompt_template ->
  read_epub input_path = Some b ->
  let total := Z.of_nat (List.length (visited (get_items b))) in
  let walk :=
    walk_items language model_name token_limit prompt_template
      progress_callback genre bilingual
      (resolve override_title (dc_title b) (lit "Unknown Title"))
      (resolve override_author (dc_creator b) (lit "Unknown Author"))
      total (get_items b) 0 w in
  translate_book input_path output_path language model_name token_limit
    template_path progress_callback genre bilingual override_title
    override_author w
  = (Done {| dc_title := dc_title b; dc_creator := dc_creator b;
             get_items := fst (value_of walk) |}
       (snd (value_of walk)) total,
     trace_of walk, world_of walk).
Proof.
  intros Htpl Hbook total walk. unfold translate_book.
  rewrite Htpl, Hbook, (count_paragraphs_in_book_visited _ _ Hbook).
  rewrite bind_run. fold total. fold walk.
  rewrite trace_ret, value_ret, world_ret, app_nil_r. reflexivity.
Qed.

(** C4. The counter starts at 0 and after the walk equals the precomputed
    total, which is the number of Text Units visited; a supplied callback
    is invoked once per unit, with 1, 2, ..., total in this order, so never
    with a value above the total. *)
Theorem progress_counter_matches_total
    (input_path output_path language model_name : str) (token_limit : Z)
    (template_path : str) (progress_callback : bool) (genre : str)
    (bilingual : bool) (override_title override_author : str) (w : World)
    (prompt_template : Template) (b : book)
    (Htemplate : load_prompt_template template_path = Some prompt_template)
    (Hbook : read_epub input_path = Some b) :
  let run :=
    translate_book input_path output_path language model_name token_limit
      template_path progress_callback genre bilingual override_title
      override_author w in
  let n := List.length (visited (get_items b)) in
  count_paragraphs_in_book input_path = Some (Z.of_nat n)
  /\ (exists written, value_of run = Done written (Z.of_nat n) (Z.of_nat n))
  /\ filter is_progress (trace_of run)
     = (if progress_callback then notifications n 1 (Z.of_nat n) else [])
  /\ forall current total,
       In (ProgressCallback current total) (trace_of run) ->
       (1 <= current <= total)%Z /\ total = Z.of_nat n.
Proof.
  intros run n. subst run.
  rewrite (translate_book_run input_path output_path language model_name
             token_limit template_path progress_callback genre bilingual
             override_title override_author w _ _ Htemplate Hbook).
  cbn zeta. fold n. unfold value_of at 1, trace_of at 1 2. cbn [fst snd].
  match goal with
  | |- context [walk_items ?a1 ?a2 ?a3 ?a4 ?a5 ?a6 ?a7 ?a8 ?a9 ?a10 ?a11 ?a12 w] =>
      destruct (walk_items_progress a1 a2 a3 a4 a5 a6 a7 a8 a9 a10 a11 a12 w)
        as [Ht Hv]
  end.
  cbn zeta in Ht, Hv. fold n in Ht, Hv.
  split; [apply count_paragraphs_in_book_visited, Hbook|].
  split; [eexists; rewrite Hv; reflexivity|].
  split; [exact Ht|].
  intros current total Hin.
  assert (Hin' : In (ProgressCallback current total)
                   (filter is_progress
                      (trace_of
                         (walk_items language model_name token_limit
                            prompt_template progress_callback genre bilingual
                            (resolve override_title (dc_title b)
                               (lit "Unknown Title"))
                            (resolve override_author (dc_creator b)
                               (lit "Unknown Author"))
                            (Z.of_nat n) (get_items b) 0 w)))).
  { apply filter_In. split; [exact Hin|reflexivity]. }
  rewrite Ht in Hin'. destruct progress_callback; [|contradiction].
  apply notifications_range in Hin' as [Hr ->]. split; [lia|reflexivity].
Qed.



(** ** Further properties of the text normalizer *)

Lemma words_nil_blank (s : str) : words s = [] -> blank s = true.
Proof.
  induction s as [|c t IH]; [reflexivity|].
  destruct (isspace c) eqn:Ec.
  - rewrite (words_space _ _ Ec). intro H.
    unfold blank in *. simpl. rewrite Ec. exact (IH H).
  - intro H. exfalso. exact (words_head_nonempty _ t Ec H).
Qed.

Lemma join_nil_inv (ws : list str) :
  Forall solid ws -> join [SP] ws = [] -> ws = [].
Proof.
  intros Hs Hj. destruct ws as [|w rest]; [reflexivity|].
  inversion Hs as [|? ? [Hw _] _]; subst.
  exfalso. exact (join_nonempty [SP] w rest Hw Hj).
Qed.

(** X1. The normalizer returns the empty string exactly for the texts made
    of whitespace only (the empty text among them). *)
Theorem clean_text_empty_iff_blank (text : str) :
  clean_text text = [] <-> blank text = true.
Proof.
  rewrite clean_text_words. split.
  - intro H. apply join_nil_inv in H; [|apply words_solid].
    rewrite <- blank_map_norm. apply words_nil_blank, H.
  - intro H. rewrite words_blank; [reflexivity|].
    rewrite blank_map_norm. exact H.
Qed.

Lemma tidy_from_solid (w r : str) (b : bool) :
  solid w -> tidy_from b (w ++ r) = tidy_from false r.
Proof.
  intros [Hne Hall]. revert b.
  induction Hall as [|c t Hc Ht IH]; intro b; [contradiction|].
  cbn [app tidy_from]. rewrite Hc.
  destruct t as [|d t']; [reflexivity|].
  apply IH. discriminate.
Qed.

Lemma tidy_from_join (ws : list str) :
  Forall solid ws -> ws <> [] -> tidy_from true (join [SP] ws) = true.
Proof.
  induction 1 as [|w ws Hw Hws IH]; intro Hne; [contradiction|].
  destruct ws as [|q rest].
  - cbn [join]. rewrite <- (app_nil_r w), (tidy_from_solid _ _ _ Hw).
    reflexivity.
  - rewrite join_cons, (tidy_from_solid _ _ _ Hw).
    cbn [app tidy_from]. rewrite isspace_SP. cbn.
    apply IH. discriminate.
Qed.

(** X2. A normalized text is tidy: it neither starts nor ends with
    whitespace, and the only whitespace in it is single space characters. *)
Theorem clean_text_tidy (text : str) : tidy (clean_text text) = true.
Proof.
  rewrite clean_text_words.
  destruct (words (map norm text)) as [|w ws] eqn:W; [reflexivity|].
  pose proof (words_solid (map norm text)) as Hs. rewrite W in Hs.
  unfold tidy. destruct (join [SP] (w :: ws)) eqn:J; [reflexivity|].
  rewrite <- J. apply tidy_from_join; [exact Hs|discriminate].
Qed.

Lemma Forall_join (P : char -> Prop) (ws : list str) :
  P SP -> Forall (Forall P) ws -> Forall P (join [SP] ws).
Proof.
  intros Hsp. induction 1 as [|w ws Hw Hws IH]; [constructor|].
  destruct ws as [|q rest]; [exact Hw|].
  rewrite join_cons. apply Forall_app. split; [exact Hw|].
  constructor; [exact Hsp|exact IH].
Qed.

Lemma norm_not_replaced (c : char) :
  norm c <> LF /\ norm c <> CR /\ norm c <> RSQUO /\ norm c <> LSQUO.
Proof.
  unfold norm.
  destruct (N.eqb_spec c LF); [repeat split; discriminate|].
  destruct (N.eqb_spec c CR); [repeat split; discriminate|].
  destruct (N.eqb_spec c RSQUO); [repeat split; discriminate|].
  destruct (N.eqb_spec c LSQUO); [repeat split; discriminate|].
  repeat split; assumption.
Qed.

(** X3. A normalized text holds no line feed, no carriage return and
    neither of the two curly single quotes. *)
Theorem clean_text_without_replaced (text : str) :
  Forall (fun c => c <> LF /\ c <> CR /\ c <> RSQUO /\ c <> LSQUO)
    (clean_text text).
Proof.
  rewrite clean_text_words. apply Forall_join.
  - repeat split; discriminate.
  - apply words_chars. apply Forall_forall. intros c Hc.
    apply in_map_iff in Hc as (x & <- & _). apply norm_not_replaced.
Qed.

Lemma concat_words (s : str) : List.concat (words s) = filter nonspace s.
Proof.
  induction s as [|c t IH]; [reflexivity|].
  cbn [filter]. unfold nonspace at 1.
  destruct (isspace c) eqn:Ec; cbn [negb].
  - rewrite (words_space _ _ Ec). exact IH.
  - destruct t as [|d t'].
    + simpl. rewrite Ec. reflexivity.
    + destruct (isspace d) eqn:Ed.
      * rewrite (words_then_space _ _ _ Ec Ed).
        rewrite (words_space _ _ Ed) in IH.
        cbn [List.concat app]. rewrite IH. reflexivity.
      * destruct (words_then_char _ _ t' Ec Ed) as (w & ws & W1 & W2).
        rewrite W2. rewrite W1 in IH. cbn [List.concat app] in *.
        rewrite IH. reflexivity.
Qed.

Lemma filter_nonspace_solid (w : str) : solid w -> filter nonspace w = w.
Proof.
  intros [_ Hall]. induction Hall as [|c t Hc _ IH]; [reflexivity|].
  cbn [filter]. unfold nonspace at 1. rewrite Hc. cbn [negb].
  rewrite IH. reflexivity.
Qed.

Lemma filter_nonspace_join (ws : list str) :
  Forall solid ws -> filter nonspace (join [SP] ws) = List.concat ws.
Proof.
  induction 1 as [|w ws Hw Hws IH]; [reflexivity|].
  destruct ws as [|q rest].
  - cbn [join List.concat]. rewrite app_nil_r.
    apply filter_nonspace_solid, Hw.
  - rewrite join_cons, filter_app, (filter_nonspace_solid _ Hw).
    cbn [app filter]. unfold nonspace at 1. rewrite isspace_SP. cbn [negb].
    rewrite IH. reflexivity.
Qed.

Lemma filter_nonspace_norm (s : str) :
  filter nonspace (map norm s) = map norm (filter nonspace s).
Proof.
  induction s as [|c t IH]; [reflexivity|].
  assert (E : nonspace (norm c) = nonspace c)
    by (unfold nonspace; rewrite isspace_norm; reflexivity).
  cbn [map filter]. rewrite E.
  destruct (nonspace c); cbn [map]; rewrite IH; reflexivity.
Qed.

(** X4. The normalizer touches nothing but whitespace and the curly
    quotes: the non-whitespace characters of the result are those of the
    text, in order, with each curly quote turned into an apostrophe. *)
Theorem clean_text_keeps_characters (text : str) :
  filter nonspace (clean_text text) = map norm (filter nonspace text).
Proof.
  rewrite clean_text_words, filter_nonspace_join by apply words_solid.
  rewrite concat_words. apply filter_nonspace_norm.
Qed.

Lemma length_sub_ws (b : bool) (s : str) :
  (List.length (sub_ws b s) <= List.length s)%nat.
Proof.
  revert b. induction s as [|c t IH]; intro b; [apply Nat.le_refl|].
  cbn [sub_ws]. destruct (isspace c); [destruct b|]; cbn [List.length].
  - specialize (IH true). lia.
  - specialize (IH true). lia.
  - specialize (IH false). lia.
Qed.

Lemma length_lstrip (s : str) : (List.length (lstrip s) <= List.length s)%nat.
Proof.
  induction s as [|c t IH]; [apply Nat.le_refl|].
  cbn [lstrip]. destruct (isspace c); cbn [List.length]; lia.
Qed.

Lemma length_rstrip (s : str) : (List.length (rstrip s) <= List.length s)%nat.
Proof.
  induction s as [|c t IH]; [apply Nat.le_refl|].
  cbn [rstrip]. destruct (rstrip t) as [|d t'].
  - destruct (isspace c); cbn [List.length]; lia.
  - cbn [List.length] in *. lia.
Qed.

(** X5. Normalizing never makes a text longer. *)
Theorem clean_text_not_longer (text : str) :
  (List.length (clean_text text) <= List.length text)%nat.
Proof.
  unfold clean_text, strip, replace.
  match goal with
  | |- (List.length (rstrip (lstrip (sub_ws false ?m))) <= _)%nat =>
      pose proof (length_rstrip (lstrip (sub_ws false m))) as H1;
      pose proof (length_lstrip (sub_ws false m)) as H2;
      pose proof (length_sub_ws false m) as H3;
      assert (H4 : List.length m = List.length text)
        by (rewrite !length_map; reflexivity)
  end.
  lia.
Qed.

Lemma join_app (sep : str) (xs ys : list str) :
  xs <> [] -> ys <> [] ->
  join sep (xs ++ ys) = join sep xs ++ sep ++ join sep ys.
Proof.
  intros Hx Hy. induction xs as [|x xs IH]; [contradiction|].
  destruct xs as [|x' xs'].
  - destruct ys as [|y ys']; [contradiction|]. reflexivity.
  - cbn [app] in *. rewrite !join_cons, IH by discriminate.
    rewrite <- !app_assoc. reflexivity.
Qed.

(** X6. Two texts with something other than whitespace in each, put
    together with any non-empty whitespace between them, normalize to the
    two normalized texts with one space between them. *)
Theorem clean_text_of_separated (a gap b : str)
    (Hgap : blank gap = true) (Hsome : gap <> [])
    (Ha : blank a = false) (Hb : blank b = false) :
  clean_text (a ++ gap ++ b) = clean_text a ++ [SP] ++ clean_text b.
Proof.
  rewrite !clean_text_words, !map_app.
  rewrite words_app_gap.
  - apply join_app.
    + intro H. apply words_nil_blank in H.
      rewrite blank_map_norm in H. congruence.
    + intro H. apply words_nil_blank in H.
      rewrite blank_map_norm in H. congruence.
  - rewrite blank_map_norm. exact Hgap.
  - destruct gap; [contradiction|discriminate].
Qed.

(** ** Further properties of the chunker *)

Lemma count_tokens_nonneg (text : str) : (0 <= count_tokens text)%Z.
Proof. unfold count_tokens. apply Nat2Z.is_nonneg. Qed.

Lemma estimate_sum_nonneg (g : list str) : (0 <= estimate_sum g)%Z.
Proof.
  unfold estimate_sum, sum_Z. induction g as [|s g IH]; simpl; [lia|].
  pose proof (count_tokens_nonneg s). lia.
Qed.

Lemma estimate_sum_cons (s : str) (g : list str) :
  estimate_sum (s :: g) = (count_tokens s + estimate_sum g)%Z.
Proof. reflexivity. Qed.

Lemma length_concat_nonempty {A} (ls : list (list A)) :
  Forall (fun l => l <> []) ls ->
  (List.length ls <= List.length (List.concat ls))%nat.
Proof.
  induction 1 as [|l ls Hl _ IH]; [apply Nat.le_refl|].
  cbn [List.concat List.length]. rewrite length_app.
  destruct l; [contradiction|]. cbn [List.length]. lia.
Qed.

(** X7. There are never more chunks than sentences, and there is no chunk
    exactly when the tokenizer finds no sentence. *)
Theorem chunks_no_more_than_sentences (text : str) (max_tokens : Z) :
  (List.length (split_text_by_tokens text max_tokens)
   <= List.length (sent_tokenize text))%nat
  /\ (split_text_by_tokens text max_tokens = [] <-> sent_tokenize text = []).
Proof.
  destruct (split_text_by_tokens_groups text max_tokens)
    as (gs & -> & Hcat & Hne & _).
  pose proof (length_concat_nonempty gs Hne) as Hlen.
  rewrite Hcat, length_map in Hlen. rewrite length_map.
  split; [exact Hlen|]. split.
  - intro H. destruct gs as [|g gs']; [|discriminate].
    destruct (sent_tokenize text); [reflexivity|discriminate].
  - intro H. rewrite H in Hlen. destruct gs; [reflexivity|].
    cbn in Hlen. lia.
Qed.

Lemma fold_chunker_fits (max_tokens : Z) (sentences : list str) :
  forall cur len,
    (len + estimate_sum (map clean_text sentences) <= max_tokens)%Z ->
    fold_left (chunker_step max_tokens) sentences
      {| chunks := []; current_chunk := cur; current_length := len |}
    = {| chunks := [];
         current_chunk := cur ++ map clean_text sentences;
         current_length := (len + estimate_sum (map clean_text sentences))%Z |}.
Proof.
  induction sentences as [|s rest IH]; intros cur len Hfit.
  - cbn. rewrite app_nil_r, Z.add_0_r. reflexivity.
  - cbn [fold_left map] in *. rewrite estimate_sum_cons in *.
    pose proof (estimate_sum_nonneg (map clean_text rest)) as Hrest.
    unfold chunker_step at 2. cbn [current_length current_chunk chunks].
    destruct (len + count_tokens (clean_text s) >? max_tokens)%Z eqn:Over.
    + rewrite Z.gtb_ltb in Over. apply Z.ltb_lt in Over. lia.
    + rewrite IH by lia. rewrite <- app_assoc, Z.add_assoc. reflexivity.
Qed.

(** X8. A text whose sentences fit the budget together, by the sum of
    their estimates, is one chunk: all its cleaned sentences joined by single
    spaces. *)
Theorem fitting_text_is_one_chunk (text : str) (max_tokens : Z)
    (Hsome : sent_tokenize text <> [])
    (Hfit : (estimate_sum (map clean_text (sent_tokenize text))
             <= max_tokens)%Z) :
  split_text_by_tokens text max_tokens
  = [join [SP] (map clean_text (sent_tokenize text))].
Proof.
  unfold split_text_by_tokens.
  rewrite fold_chunker_fits by (rewrite Z.add_0_l; exact Hfit).
  unfold flush. cbn [current_chunk chunks app].
  destruct (sent_tokenize text); [contradiction|reflexivity].
Qed.

Lemma fold_chunker_oversize (max_tokens : Z) (sentences : list str) :
  Forall (fun s => (count_tokens (clean_text s) > max_tokens)%Z) sentences ->
  forall st,
    (0 <= current_length st)%Z ->
    flush (fold_left (chunker_step max_tokens) sentences st)
    = flush st ++ map clean_text sentences.
Proof.
  induction 1 as [|s rest Hs Hrest IH]; intros st Hlen.
  - cbn. rewrite app_nil_r. reflexivity.
  - cbn [fold_left map]. rewrite IH.
    + unfold chunker_step.
      destruct (current_length st + count_tokens (clean_text s)
                >? max_tokens)%Z eqn:Over.
      * unfold flush at 1. cbn [current_chunk chunks join].
        rewrite <- app_assoc. reflexivity.
      * rewrite Z.gtb_ltb in Over. apply Z.ltb_ge in Over. lia.
    + unfold chunker_step.
      destruct (_ >? max_tokens)%Z; cbn [current_length];
        pose proof (count_tokens_nonneg (clean_text s)); lia.
Qed.

(** X9. When every sentence is over the budget by itself, each cleaned
    sentence is a chunk of its own, in order: nothing is split further and
    nothing is dropped. *)
Theorem oversize_sentences_stand_alone (text : str) (max_tokens : Z)
    (Hover : Forall (fun s => (count_tokens (clean_text s) > max_tokens)%Z)
               (sent_tokenize text)) :
  split_text_by_tokens text max_tokens = map clean_text (sent_tokenize text).
Proof.
  unfold split_text_by_tokens.
  rewrite (fold_chunker_oversize _ _ Hover) by (cbn; lia).
  reflexivity.
Qed.

Lemma greedy_app_one (max_tokens : Z) (l : list (list str)) (s : str) :
  greedy max_tokens l ->
  forall l0 g,
    l = l0 ++ [g] ->
    (sum_Z (map count_tokens g) + count_tokens s > max_tokens)%Z ->
    greedy max_tokens (l ++ [[s]]).
Proof.
  induction 1 as [|g0|g0 s0 g0' rest Hc Hrest IH]; intros l0 g E Hs.
  - destruct l0; discriminate.
  - destruct l0 as [|x l0'].
    + injection E as ->. cbn. apply greedy_cons; [exact Hs|apply greedy_one].
    + destruct l0'; discriminate.
  - destruct l0 as [|x l0']; [discriminate|].
    cbn [app] in E. injection E as -> E.
    cbn [app]. apply greedy_cons; [exact Hc|].
    exact (IH l0' g E Hs).
Qed.

Lemma greedy_extend_last (max_tokens : Z) (l : list (list str)) (s : str) :
  greedy max_tokens l ->
  forall l0 g,
    l = l0 ++ [g] -> g <> [] ->
    greedy max_tokens (l0 ++ [g ++ [s]]).
Proof.
  induction 1 as [|g0|g0 s0 g0' rest Hc Hrest IH]; intros l0 g E Hne.
  - destruct l0; discriminate.
  - destruct l0 as [|x l0']; [apply greedy_one|].
    destruct l0'; discriminate.
  - destruct l0 as [|x l0']; [discriminate|].
    cbn [app] in E. injection E as -> E.
    specialize (IH l0' g E Hne).
    destruct l0' as [|y l0''].
    + cbn [app] in *. injection E as <- ->.
      cbn [app]. apply greedy_cons; [exact Hc|apply greedy_one].
    + cbn [app] in *. injection E as <- ->.
      apply greedy_cons; [exact Hc|exact IH].
Qed.

Lemma greedy_inv_step (max_tokens : Z) (done : list str) (st : chunker)
    (gs : list (list str)) (sentence : str) :
  greedy_inv max_tokens done st gs ->
  exists gs',
    greedy_inv max_tokens (done ++ [sentence])
      (chunker_step max_tokens st sentence) gs'.
Proof.
  intros (Hc & Ho & Hlen & Hg). unfold chunker_step.
  destruct (current_length st + count_tokens (clean_text sentence)
            >? max_tokens)%Z eqn:Over.
  - unfold flush. destruct (current_chunk st) as [|c cs] eqn:Cur.
    + destruct Hg as [[_ ->]|[Hne _]]; [|contradiction].
      exists []. unfold greedy_inv. cbn [chunks current_chunk current_length].
      repeat split.
      * exact Hc.
      * rewrite map_app, <- Ho. reflexivity.
      * unfold sum_Z. cbn. lia.
      * right. split; [discriminate|apply greedy_one].
    + destruct Hg as [[Hnil _]|[_ Hg]]; [discriminate|].
      exists (gs ++ [c :: cs]). unfold greedy_inv.
      cbn [chunks current_chunk current_length]. repeat split.
      * rewrite Hc, map_app. reflexivity.
      * rewrite concat_app, map_app. cbn [List.concat map].
        rewrite app_nil_r, <- Ho, <- app_assoc. reflexivity.
      * unfold sum_Z. cbn. lia.
      * right. split; [discriminate|].
        apply (greedy_app_one max_tokens (gs ++ [c :: cs])
                 (clean_text sentence) Hg gs (c :: cs) eq_refl).
        rewrite <- Hlen. rewrite Z.gtb_ltb in Over.
        apply Z.ltb_lt in Over. lia.
  - exists gs. unfold greedy_inv. cbn [chunks current_chunk current_length].
    repeat split.
    + exact Hc.
    + rewrite map_app, <- Ho, <- app_assoc. reflexivity.
    + rewrite map_app. cbn [map]. rewrite sum_Z_snoc, Hlen. reflexivity.
    + right. split; [destruct (current_chunk st); discriminate|].
      destruct Hg as [[-> ->]|[Hne Hg]]; [apply greedy_one|].
      exact (greedy_extend_last max_tokens _ (clean_text sentence) Hg gs
               (current_chunk st) eq_refl Hne).
Qed.

Lemma greedy_inv_fold (max_tokens : Z) (sentences done : list str)
    (st : chunker) (gs : list (list str)) :
  greedy_inv max_tokens done st gs ->
  exists gs',
    greedy_inv max_tokens (done ++ sentences)
      (fold_left (chunker_step max_tokens) sentences st) gs'.
Proof.
  revert done st gs.
  induction sentences as [|s rest IH]; intros done st gs Hinv.
  - exists gs. rewrite app_nil_r. exact Hinv.
  - cbn [fold_left]. destruct (greedy_inv_step _ _ _ _ s Hinv) as (gs1 & H1).
    destruct (IH _ _ _ H1) as (gs2 & H2).
    exists gs2. rewrite <- app_assoc in H2. exact H2.
Qed.

(** X10. The grouping is greedy: a chunk is closed only when the next
    sentence no longer fits, so the running estimate of a chunk plus the
    estimate of the first sentence of the following chunk is over the
    budget. *)
Theorem chunks_are_greedy (text : str) (max_tokens : Z) :
  exists gs,
    split_text_by_tokens text max_tokens = map (join [SP]) gs
    /\ List.concat gs = map clean_text (sent_tokenize text)
    /\ greedy max_tokens gs.
Proof.
  unfold split_text_by_tokens.
  assert (Hinit : greedy_inv max_tokens []
                    {| chunks := []; current_chunk := [];
                       current_length := 0 |} []).
  { unfold greedy_inv. cbn. repeat split. left. split; reflexivity. }
  destruct (greedy_inv_fold _ (sent_tokenize text) _ _ _ Hinit)
    as (gs & Hc & Ho & _ & Hg).
  cbn [app] in Ho. unfold flush.
  destruct Hg as [[Hcur ->]|[Hne Hg]].
  - rewrite Hcur in *. exists []. rewrite Hc. repeat split.
    + exact Ho.
    + apply greedy_nil.
  - destruct (current_chunk _) as [|c cs] eqn:Cur; [contradiction|].
    exists (gs ++ [c :: cs]). repeat split.
    + rewrite Hc, map_app. reflexivity.
    + rewrite concat_app. cbn [List.concat]. rewrite app_nil_r. exact Ho.
    + exact Hg.
Qed.

(** ** Further properties of the Translation Invoker *)

Lemma strip_blank (s : str) : blank s = true -> strip s = [].
Proof.
  unfold strip, blank. induction s as [|c t IH]; [reflexivity|].
  simpl. intro H. apply andb_prop in H as [Hc Ht]. rewrite Hc. exact (IH Ht).
Qed.

Lemma filter_nonspace_lstrip (s : str) :
  filter nonspace (lstrip s) = filter nonspace s.
Proof.
  induction s as [|c t IH]; [reflexivity|].
  cbn [lstrip]. destruct (isspace c) eqn:Ec; [|reflexivity].
  cbn [filter]. unfold nonspace at 2. rewrite Ec. exact IH.
Qed.

Lemma filter_nonspace_rstrip (s : str) :
  filter nonspace (rstrip s) = filter nonspace s.
Proof.
  induction s as [|c t IH]; [reflexivity|].
  cbn [rstrip filter]. destruct (rstrip t) as [|d t'].
  - rewrite <- IH. destruct (isspace c) eqn:Ec.
    + unfold nonspace. rewrite Ec. reflexivity.
    + cbn [filter]. reflexivity.
  - rewrite <- IH. reflexivity.
Qed.

Lemma blank_filter_nonspace (s : str) :
  blank s = true <-> filter nonspace s = [].
Proof.
  unfold blank. induction s as [|c t IH]; [split; reflexivity|].
  cbn [forallb filter]. unfold nonspace at 1.
  destruct (isspace c); cbn [negb andb].
  - exact IH.
  - split; discriminate.
Qed.

Lemma truthy_strip (s : str) : truthy (strip s) = negb (blank s).
Proof.
  destruct (blank s) eqn:B.
  - rewrite (strip_blank _ B). reflexivity.
  - destruct (strip s) as [|c t] eqn:S; [|reflexivity].
    exfalso. assert (H : filter nonspace s = []).
    { rewrite <- filter_nonspace_lstrip, <- filter_nonspace_rstrip.
      fold (strip s). rewrite S. reflexivity. }
    apply blank_filter_nonspace in H. congruence.
Qed.

Lemma translate_text_blank_run (text target_language model_name : str)
    (token_limit : Z) (prompt_template : Template)
    (genre title author : str) (max_retries : Z) (delay : Q) (w : World) :
  blank text = true ->
  translate_text text target_language model_name token_limit
    prompt_template genre title author max_retries delay w
  = ([], [], w).
Proof.
  intro Hblank. unfold translate_text. rewrite (strip_blank _ Hblank).
  reflexivity.
Qed.

(** X11. A text that is empty or only whitespace is translated to the
    empty string at once: no backend call, no log, the backend untouched,
    whatever the tokenizer would make of it. *)
Theorem translate_text_blank (text target_language model_name : str)
    (token_limit : Z) (prompt_template : Template)
    (genre title author : str) (max_retries : Z) (delay : Q) (w : World)
    (Hblank : blank text = true) :
  translate_text text target_language model_name token_limit
    prompt_template genre title author max_retries delay w
  = ([], [], w).
Proof. apply translate_text_blank_run, Hblank. Qed.

Section Invoker.

Variables (target_language model_name : str) (prompt_template : Template)
          (genre title author : str) (max_retries : Z) (delay : Q).

(** The prompt rendered for a chunk, and the attempts made with it. *)
Notation prompt chunk :=
  (render prompt_template
     (prompt_context target_language chunk genre title author)).

Notation attempts chunk w :=
  (retry (Z.to_nat max_retries) 0 max_retries delay model_name
     (prompt (strip chunk)) w).

Notation run_chunks todo translated_chunks w :=
  (translate_chunks todo translated_chunks target_language model_name
     prompt_template genre title author max_retries delay w).

Lemma translate_chunks_sendable (chunk : str) (rest acc : list str)
    (w : World) :
  truthy (strip chunk) = true ->
  let r := attempts chunk w in
  let others :=
    run_chunks rest
      (match value_of r with
       | Some translated_text => acc ++ [translated_text]
       | None => acc
       end) (world_of r) in
  run_chunks (chunk :: rest) acc w
  = (value_of others, trace_of r ++ trace_of others, world_of others).
Proof.
  intros Ht r others. subst r others.
  cbn [translate_chunks]. rewrite Ht, bind_run. reflexivity.
Qed.

Lemma translate_chunks_unsendable (chunk : str) (rest acc : list str)
    (w : World) :
  truthy (strip chunk) = false ->
  run_chunks (chunk :: rest) acc w = run_chunks rest acc w.
Proof.
  intro Ht. cbn [translate_chunks]. rewrite Ht. reflexivity.
Qed.

Lemma sendable_cons (chunk : str) (rest : list str) :
  sendable (chunk :: rest)
  = if truthy (strip chunk) then strip chunk :: sendable rest
    else sendable rest.
Proof. reflexivity. Qed.

Lemma translate_chunks_calls (todo : list str) :
  forall acc w,
    (List.length (filter is_chat (trace_of (run_chunks todo acc w)))
     <= List.length (sendable todo) * Z.to_nat max_retries)%nat.
Proof.
  induction todo as [|chunk rest IH]; intros acc w; [apply Nat.le_refl|].
  rewrite sendable_cons. destruct (truthy (strip chunk)) eqn:Ht.
  - rewrite (translate_chunks_sendable _ _ _ _ Ht).
    unfold trace_of at 1. cbn [fst snd List.length].
    rewrite filter_app, length_app.
    pose proof (retry_attempts_bounded max_retries delay model_name
                  (prompt (strip chunk)) (Z.to_nat max_retries) 0%Z w) as H1.
    match goal with
    | |- context [run_chunks rest ?a ?w'] => specialize (IH a w')
    end.
    lia.
  - rewrite (translate_chunks_unsendable _ _ _ _ Ht). apply IH.
Qed.

Lemma translate_text_run (text : str) (token_limit : Z) (w : World) :
  blank text = false ->
  let r := run_chunks (split_text_by_tokens (strip text) (token_limit / 2))
             [] w in
  translate_text text target_language model_name token_limit
    prompt_template genre title author max_retries delay w
  = (join [SP] (value_of r), trace_of r, world_of r).
Proof.
  intros Hb r. unfold translate_text. rewrite truthy_strip, Hb. cbn [negb].
  rewrite bind_run. rewrite trace_ret, value_ret, world_ret, app_nil_r.
  reflexivity.
Qed.

Lemma length_sendable (l : list str) :
  (List.length (sendable l) <= List.length l)%nat.
Proof.
  unfold sendable. rewrite <- (length_map strip l). apply filter_length_le.
Qed.

(** X12. Translating a text calls the backend at most [max_retries] times
    per chunk of the text, whatever the backend answers; with no retries
    allowed it is never called. *)
Theorem translate_text_calls_bounded (text : str) (token_limit : Z)
    (w : World) :
  (List.length
     (filter is_chat
        (trace_of
           (translate_text text target_language model_name token_limit
              prompt_template genre title author max_retries delay w)))
   <= List.length (split_text_by_tokens (strip text) (token_limit / 2))
      * Z.to_nat max_retries)%nat.
Proof.
  destruct (blank text) eqn:B.
  - rewrite (translate_text_blank_run _ _ _ _ _ _ _ _ _ _ w B). cbn. lia.
  - rewrite (translate_text_run _ token_limit w B).
    unfold trace_of at 1. cbn [fst snd].
    pose proof (translate_chunks_calls
                  (split_text_by_tokens (strip text) (token_limit / 2)) [] w).
    pose proof (length_sendable
                  (split_text_by_tokens (strip text) (token_limit / 2))).
    nia.
Qed.

Lemma translate_chunks_no_retries (todo : list str) :
  (max_retries <= 0)%Z ->
  forall acc w,
    run_chunks todo acc w
    = (acc,
       repeat (LogSkippingChunk max_retries) (List.length (sendable todo)),
       w).
Proof.
  intros Hnone.
  assert (Hzero : Z.to_nat max_retries = 0%nat) by lia.
  induction todo as [|chunk rest IH]; intros acc w; [reflexivity|].
  rewrite sendable_cons. destruct (truthy (strip chunk)) eqn:Ht.
  - rewrite (translate_chunks_sendable _ _ _ _ Ht).
    rewrite Hzero. cbn [retry].
    rewrite bind_run, trace_emit, world_emit, trace_ret, value_ret, world_ret.
    cbn [value_of trace_of world_of fst snd]. rewrite IH. reflexivity.
  - rewrite (translate_chunks_unsendable _ _ _ _ Ht). apply IH.
Qed.

(** X13. With [max_retries] zero or negative the backend is never called:
    every chunk is logged as skipped and the translation is the empty
    string. *)
Theorem translate_text_without_retries (text : str) (token_limit : Z)
    (w : World) (Hnone : (max_retries <= 0)%Z) :
  translate_text text target_language model_name token_limit
    prompt_template genre title author max_retries delay w
  = ([],
     repeat (LogSkippingChunk max_retries)
       (if blank text then 0
        else List.length
               (sendable
                  (split_text_by_tokens (strip text) (token_limit / 2)))),
     w).
Proof.
  destruct (blank text) eqn:B.
  - apply translate_text_blank_run, B.
  - rewrite (translate_text_run _ token_limit w B).
    rewrite (translate_chunks_no_retries _ Hnone). reflexivity.
Qed.

Section Answers.

(** A backend that answers every prompt with well-formed content. *)
Variable answer : str -> str.
Hypothesis Hanswer :
  forall prompt_content w,
    fst (chat model_name prompt_content w)
    = Returns (MessageContent (answer prompt_content)).
Hypothesis Hpos : (0 < max_retries)%Z.

Lemma translate_chunks_answered (todo : list str) :
  forall acc w,
    value_of (run_chunks todo acc w)
    = acc ++ map (fun chunk => strip (answer (prompt chunk))) (sendable todo)
    /\ trace_of (run_chunks todo acc w)
       = map (fun chunk => Chat model_name (prompt chunk)) (sendable todo).
Proof.
  induction todo as [|chunk rest IH]; intros acc w.
  - cbn. rewrite app_nil_r. split; reflexivity.
  - rewrite sendable_cons. destruct (truthy (strip chunk)) eqn:Ht.
    + rewrite (translate_chunks_sendable _ _ _ _ Ht).
      destruct (Z.to_nat max_retries) as [|k] eqn:K; [lia|].
      rewrite (retry_success _ _ _ _ _ _ _ _ (Hanswer (prompt (strip chunk)) w)).
      destruct (IH (acc ++ [strip (answer (prompt (strip chunk)))])
                  (snd (chat model_name (prompt (strip chunk)) w)))
        as [Hv Ht'].
      unfold value_of, trace_of, world_of in *.
      cbn [fst snd map app]. rewrite Hv, Ht', <- app_assoc.
      split; reflexivity.
    + rewrite (translate_chunks_unsendable _ _ _ _ Ht). apply IH.
Qed.

(** X14. When the backend answers every prompt with well-formed content,
    a text is translated with exactly one call per non-empty chunk, in the
    order of the chunks, without any log or wait, and the result is the
    stripped answers joined by single spaces. *)
Theorem translate_text_answered (text : str) (token_limit : Z) (w : World)
    (Htext : blank text = false) :
  let sent :=
    sendable (split_text_by_tokens (strip text) (token_limit / 2)) in
  let r :=
    translate_text text target_language model_name token_limit
      prompt_template genre title author max_retries delay w in
  value_of r
  = join [SP]
      (map (fun chunk =>
              strip
                (answer
                   (render prompt_template
                      (prompt_context target_language chunk genre title
                         author))))
         sent)
  /\ trace_of r
     = map (fun chunk =>
              Chat model_name
                (render prompt_template
                   (prompt_context target_language chunk genre title author)))
         sent.
Proof.
  cbn zeta. rewrite (translate_text_run _ token_limit w Htext).
  destruct (translate_chunks_answered
              (split_text_by_tokens (strip text) (token_limit / 2)) [] w)
    as [Hv Ht].
  unfold value_of, trace_of in *. cbn [fst snd].
  rewrite Hv, Ht. split; reflexivity.
Qed.

End Answers.

Lemma retry_skip_count (remaining : nat) :
  forall attempt prompt_content w,
    let r := retry remaining attempt max_retries delay model_name
               prompt_content w in
    List.length (filter is_skip (trace_of r))
    = match value_of r with None => 1%nat | Some _ => 0%nat end.
Proof.
  induction remaining as [|n IH]; intros attempt p w; cbn zeta;
    [reflexivity|].
  destruct (fst (chat model_name p w)) as [[| |content]|e] eqn:E.
  - rewrite (retry_malformed _ _ _ _ _ _ _ (or_introl E)).
    cbn [value_of trace_of fst snd filter is_skip]. apply IH.
  - rewrite (retry_malformed _ _ _ _ _ _ _ (or_intror E)).
    cbn [value_of trace_of fst snd filter is_skip]. apply IH.
  - rewrite (retry_success _ _ _ _ _ _ _ _ E). reflexivity.
  - rewrite (retry_exception _ _ _ _ _ _ _ _ E).
    cbn [value_of trace_of fst snd filter is_skip app]. apply IH.
Qed.

(** X15. Every non-empty chunk is accounted for: it adds one translation
    to the collected list or one logged skip, never both and never
    neither. *)
Theorem chunks_translated_or_skipped (todo translated_chunks : list str)
    (w : World) :
  let r :=
    translate_chunks todo translated_chunks target_language model_name
      prompt_template genre title author max_retries delay w in
  (List.length (value_of r) + List.length (filter is_skip (trace_of r))
   = List.length translated_chunks + List.length (sendable todo))%nat.
Proof.
  cbn zeta. revert translated_chunks w.
  induction todo as [|chunk rest IH]; intros acc w; [cbn; lia|].
  rewrite sendable_cons. destruct (truthy (strip chunk)) eqn:Ht.
  - rewrite (translate_chunks_sendable _ _ _ _ Ht).
    cbn [value_of trace_of fst snd]. rewrite filter_app, length_app.
    pose proof (retry_skip_count (Z.to_nat max_retries) 0%Z
                  (prompt (strip chunk)) w) as Hs.
    cbn zeta in Hs.
    match goal with
    | |- context [run_chunks rest ?a ?w'] => specialize (IH a w')
    end.
    unfold value_of, trace_of in *.
    destruct (fst (fst (attempts chunk w))) as [t|];
      rewrite ?length_app in IH; cbn [List.length] in *; lia.
  - rewrite (translate_chunks_unsendable _ _ _ _ Ht). apply IH.
Qed.

Lemma well_paced_app (d : Q) (n : nat) :
  forall a b,
    (List.length a <= n)%nat ->
    well_paced d a -> well_paced d b -> well_paced d (a ++ b).
Proof.
  induction n as [|n IH]; intros a b Hlen Ha Hb.
  - destruct a; [exact Hb|cbn in Hlen; lia].
  - destruct a as [|e a']; [exact Hb|].
    cbn [List.length] in Hlen.
    destruct e; cbn [app well_paced] in *;
      try (apply IH; [lia|assumption|assumption]).
    + destruct a' as [|e' a'']; [contradiction|].
      destruct e'; try contradiction.
      cbn [app]. destruct Ha as [Hd Ha]. split; [exact Hd|].
      apply IH; [cbn [List.length] in Hlen; lia|assumption|assumption].
    + contradiction.
Qed.

Lemma retry_well_paced (remaining : nat) :
  forall attempt prompt_content w,
    well_paced delay
      (trace_of (retry remaining attempt max_retries delay model_name
                   prompt_content w)).
Proof.
  induction remaining as [|n IH]; intros attempt p w; [exact I|].
  destruct (fst (chat model_name p w)) as [[| |content]|e] eqn:E.
  - rewrite (retry_malformed _ _ _ _ _ _ _ (or_introl E)). apply IH.
  - rewrite (retry_malformed _ _ _ _ _ _ _ (or_intror E)). apply IH.
  - rewrite (retry_success _ _ _ _ _ _ _ _ E). exact I.
  - rewrite (retry_exception _ _ _ _ _ _ _ _ E).
    cbn [trace_of fst snd app well_paced]. split; [reflexivity|apply IH].
Qed.

Lemma translate_chunks_well_paced (todo : list str) :
  forall acc w, well_paced delay (trace_of (run_chunks todo acc w)).
Proof.
  induction todo as [|chunk rest IH]; intros acc w; [exact I|].
  destruct (truthy (strip chunk)) eqn:Ht.
  - rewrite (translate_chunks_sendable _ _ _ _ Ht).
    cbn [trace_of fst snd].
    apply (well_paced_app delay _ _ _ (Nat.le_refl _)).
    + apply retry_well_paced.
    + apply IH.
  - rewrite (translate_chunks_unsendable _ _ _ _ Ht). apply IH.
Qed.

(** X16. In the events of a translation, every logged failure of an
    attempt is directly followed by a wait of [delay], and the pipeline
    never waits otherwise. *)
Theorem translate_text_well_paced (text : str) (token_limit : Z) (w : World) :
  well_paced delay
    (trace_of
       (translate_text text target_language model_name token_limit
          prompt_template genre title author max_retries delay w)).
Proof.
  destruct (blank text) eqn:B.
  - rewrite (translate_text_blank_run _ _ _ _ _ _ _ _ _ _ w B). exact I.
  - rewrite (translate_text_run _ token_limit w B).
    apply translate_chunks_well_paced.
Qed.

Lemma chat_for_incl (allowed allowed' : list str) (e : event) :
  (forall c, In c allowed -> In c allowed') ->
  chat_for model_name prompt_template target_language genre title author
    allowed e ->
  chat_for model_name prompt_template target_language genre title author
    allowed' e.
Proof.
  intros Hincl. destruct e; cbn; auto.
  intros [Hm (chunk & Hin & Hp)]. split; [exact Hm|].
  exists chunk. split; [apply Hincl, Hin|exact Hp].
Qed.

Lemma translate_chunks_chat_for (todo : list str) :
  forall acc w,
    Forall
      (chat_for model_name prompt_template target_language genre title author
         (sendable todo))
      (trace_of (run_chunks todo acc w)).
Proof.
  induction todo as [|chunk rest IH]; intros acc w; [constructor|].
  rewrite sendable_cons. destruct (truthy (strip chunk)) eqn:Ht.
  - rewrite (translate_chunks_sendable _ _ _ _ Ht).
    cbn [trace_of fst snd]. apply Forall_app. split.
    + apply retry_traces; cbn; auto.
      split; [reflexivity|]. exists (strip chunk).
      split; [left; reflexivity|reflexivity].
    + eapply Forall_impl; [|apply IH].
      intro e. apply chat_for_incl. intros c Hc. right. exact Hc.
  - rewrite (translate_chunks_unsendable _ _ _ _ Ht). apply IH.
Qed.

(** X17. The backend only ever sees the chunks of the text: every call
    is made with the given model and with the template rendered on one of
    the stripped, non-empty chunks of the stripped text for the budget
    [token_limit // 2]. *)
Theorem translate_text_sends_chunks (text : str) (token_limit : Z)
    (w : World) :
  Forall
    (chat_for model_name prompt_template target_language genre title author
       (sendable (split_text_by_tokens (strip text) (token_limit / 2))))
    (trace_of
       (translate_text text target_language model_name token_limit
          prompt_template genre title author max_retries delay w)).
Proof.
  destruct (blank text) eqn:B.
  - rewrite (translate_text_blank_run _ _ _ _ _ _ _ _ _ _ w B). constructor.
  - rewrite (translate_text_run _ token_limit w B).
    apply translate_chunks_chat_for.
Qed.

Lemma translate_chunks_all_fail (todo : list str)
    (Hfail : forall prompt_content w content,
       fst (chat model_name prompt_content w)
       <> Returns (MessageContent content)) :
  forall acc w, value_of (run_chunks todo acc w) = acc.
Proof.
  induction todo as [|chunk rest IH]; intros acc w; [reflexivity|].
  destruct (truthy (strip chunk)) eqn:Ht.
  - rewrite (translate_chunks_sendable _ _ _ _ Ht).
    cbn [value_of fst snd].
    destruct (retry_exhausted max_retries delay model_name
                (prompt (strip chunk))
                (fun w content => Hfail (prompt (strip chunk)) w content)
                (Z.to_nat max_retries) 0%Z w) as (Hnone & _).
    cbn zeta in Hnone.
    unfold value_of in Hnone |- *. rewrite Hnone. apply IH.
  - rewrite (translate_chunks_unsendable _ _ _ _ Ht). apply IH.
Qed.

Lemma translate_text_all_fail (text : str) (token_limit : Z) (w : World)
    (Hfail : forall prompt_content w content,
       fst (chat model_name prompt_content w)
       <> Returns (MessageContent content)) :
  value_of
    (translate_text text target_language model_name token_limit
       prompt_template genre title author max_retries delay w) = [].
Proof.
  destruct (blank text) eqn:B.
  - rewrite (translate_text_blank_run _ _ _ _ _ _ _ _ _ _ w B). reflexivity.
  - rewrite (translate_text_run _ token_limit w B).
    pose proof (translate_chunks_all_fail
                  (split_text_by_tokens (strip text) (token_limit / 2))
                  Hfail [] w) as H.
    unfold value_of in *. cbn [fst snd]. rewrite H. reflexivity.
Qed.

End Invoker.

(** ** Further properties of the Document Walker *)

Lemma filter_nonspace_strip (s : str) :
  filter nonspace (strip s) = filter nonspace s.
Proof.
  unfold strip. rewrite filter_nonspace_rstrip. apply filter_nonspace_lstrip.
Qed.

Lemma filter_nonspace_get_text (p : p_tag) :
  filter nonspace (get_text p) = filter nonspace (raw_text p).
Proof.
  unfold get_text, raw_text.
  induction (flat_map all_strings (contents p)) as [|s l IH];
    [reflexivity|].
  cbn [map filter List.concat]. rewrite filter_app, <- IH.
  rewrite <- (filter_nonspace_strip s).
  destruct (strip s) as [|c t]; cbn [truthy List.concat];
    [reflexivity|rewrite filter_app; reflexivity].
Qed.

Lemma clean_text_nonblank (text : str) :
  blank text = false -> truthy (clean_text text) = true.
Proof.
  intro Hb. destruct (clean_text text) as [|c t] eqn:E; [|reflexivity].
  exfalso. rewrite clean_text_words in E.
  apply join_nil_inv in E; [|apply words_solid].
  apply words_nil_blank in E. rewrite blank_map_norm in E. congruence.
Qed.

Lemma get_text_nonblank (p : p_tag) :
  blank (raw_text p) = false -> blank (get_text p) = false.
Proof.
  intro Hb. destruct (blank (get_text p)) eqn:B; [|reflexivity].
  apply blank_filter_nonspace in B. rewrite filter_nonspace_get_text in B.
  apply blank_filter_nonspace in B. congruence.
Qed.

Section WalkFurther.

Variables (language model_name : str) (token_limit : Z)
          (prompt_template : Template) (progress_callback : bool)
          (genre : str) (bilingual : bool)
          (final_title final_author : str) (total_paragraphs : Z).

(** X18. When the backend never gives a well-formed answer, a paragraph
    with text still has its content replaced: by an empty string, so the
    original text is gone from the book; in bilingual mode by the original
    with an empty translation. *)
Theorem failed_translation_empties_paragraph (p : p_tag) (w : World)
    (Htext : blank (raw_text p) = false)
    (Hfail : forall prompt_content w' content,
       fst (chat model_name prompt_content w')
       <> Returns (MessageContent content)) :
  value_of
    (translate_paragraph language model_name token_limit prompt_template
       genre bilingual final_title final_author p w)
  = if bilingual
    then {| contents :=
              [Tag "[document]"
                 (html_parser
                    (lit "ORIGINAL: " ++ clean_text (get_text p)
                       ++ lit "<br/><br/>" ++ lit "<i>TRANSLATION: "
                       ++ lit "</i>"))] |}
    else {| contents := [NavigableString []] |}.
Proof.
  unfold translate_paragraph.
  rewrite (clean_text_nonblank _ (get_text_nonblank _ Htext)).
  rewrite value_bind, value_ret.
  rewrite (translate_text_all_fail language model_name prompt_template genre
             final_title final_author default_max_retries default_delay
             (clean_text (get_text p)) token_limit w Hfail).
  reflexivity.
Qed.

Lemma translate_paragraph_blank_run (p : p_tag) (w : World) :
  blank (raw_text p) = true ->
  translate_paragraph language model_name token_limit prompt_template
    genre bilingual final_title final_author p w = (p, [], w).
Proof.
  intro Hb. unfold translate_paragraph.
  rewrite (raw_blank_get_text _ Hb). reflexivity.
Qed.

Lemma walk_paragraphs_cons (p : p_tag) (rest : list p_tag)
    (current_count : Z) (w : World) :
  let first :=
    translate_paragraph language model_name token_limit prompt_template
      genre bilingual final_title final_author p w in
  let after :=
    walk_paragraphs language model_name token_limit prompt_template
      progress_callback genre bilingual final_title final_author
      total_paragraphs rest (current_count + 1) (world_of first) in
  walk_paragraphs language model_name token_limit prompt_template
    progress_callback genre bilingual final_title final_author
    total_paragraphs (p :: rest) current_count w
  = ((value_of first :: fst (value_of after), snd (value_of after)),
     trace_of first
       ++ (if progress_callback
           then [ProgressCallback (current_count + 1) total_paragraphs]
           else [])
       ++ trace_of after,
     world_of after).
Proof.
  cbn zeta. cbn [walk_paragraphs]. rewrite !bind_run.
  rewrite world_report_progress, trace_report_progress.
  rewrite trace_ret, value_ret, world_ret, app_nil_r. reflexivity.
Qed.

Lemma walk_items_cons (it : item) (rest : list item) (current_count : Z)
    (w : World) :
  walk_items language model_name token_limit prompt_template
    progress_callback genre bilingual final_title final_author
    total_paragraphs (it :: rest) current_count w
  = match get_type it with
    | ITEM_DOCUMENT =>
        let r :=
          walk_paragraphs language model_name token_limit prompt_template
            progress_callback genre bilingual final_title final_author
            total_paragraphs (find_all_p it) current_count w in
        let r' :=
          walk_items language model_name token_limit prompt_template
            progress_callback genre bilingual final_title final_author
            total_paragraphs rest (snd (value_of r)) (world_of r) in
        (({| get_type := ITEM_DOCUMENT; find_all_p := fst (value_of r) |}
            :: fst (value_of r'), snd (value_of r')),
         trace_of r ++ trace_of r', world_of r')
    | ITEM_OTHER =>
        let r' :=
          walk_items language model_name token_limit prompt_template
            progress_callback genre bilingual final_title final_author
            total_paragraphs rest current_count w in
        ((it :: fst (value_of r'), snd (value_of r')),
         trace_of r', world_of r')
    end.
Proof.
  cbn [walk_items]. destruct (get_type it); cbn zeta.
  - rewrite !bind_run, trace_ret, value_ret, world_ret, app_nil_r.
    reflexivity.
  - rewrite !bind_run, trace_ret, value_ret, world_ret, app_nil_r.
    reflexivity.
Qed.

Lemma walk_items_same_item (items : list item) :
  forall current_count w,
    Forall2 same_item items
      (fst (value_of
              (walk_items language model_name token_limit prompt_template
                 progress_callback genre bilingual final_title final_author
                 total_paragraphs items current_count w))).
Proof.
  induction items as [|it rest IH]; intros current_count w; [constructor|].
  rewrite walk_items_cons. destruct (get_type it) eqn:T; cbn zeta;
    cbn [value_of fst snd]; constructor; try apply IH.
  all: unfold same_item; rewrite T; split; first [reflexivity | exact I].
Qed.

Lemma walk_paragraphs_blank (paragraphs : list p_tag) :
  Forall (fun p => blank (raw_text p) = true) paragraphs ->
  forall current_count w,
    walk_paragraphs language model_name token_limit prompt_template
      progress_callback genre bilingual final_title final_author
      total_paragraphs paragraphs current_count w
    = ((paragraphs, (current_count + Z.of_nat (List.length paragraphs))%Z),
       (if progress_callback
        then notifications (List.length paragraphs) (current_count + 1)
               total_paragraphs
        else []),
       w).
Proof.
  induction 1 as [|p rest Hp Hrest IH]; intros current_count w.
  - cbn. rewrite Z.add_0_r. destruct progress_callback; reflexivity.
  - rewrite walk_paragraphs_cons, (translate_paragraph_blank_run _ _ Hp).
    cbn [value_of trace_of world_of fst snd app]. rewrite IH.
    cbn [fst snd List.length notifications].
    replace (current_count + 1 + Z.of_nat (List.length rest))%Z
      with (current_count + Z.of_nat (S (List.length rest)))%Z by lia.
    destruct progress_callback; reflexivity.
Qed.

Lemma walk_items_blank (items : list item) :
  Forall (fun p => blank (raw_text p) = true) (visited items) ->
  forall current_count w,
    walk_items language model_name token_limit prompt_template
      progress_callback genre bilingual final_title final_author
      total_paragraphs items current_count w
    = ((items, (current_count + Z.of_nat (List.length (visited items)))%Z),
       (if progress_callback
        then notifications (List.length (visited items)) (current_count + 1)
               total_paragraphs
        else []),
       w).
Proof.
  induction items as [|it rest IH]; intros Hall current_count w.
  - cbn. rewrite Z.add_0_r. destruct progress_callback; reflexivity.
  - rewrite walk_items_cons. cbn [visited flat_map] in *.
    fold (visited rest) in *. apply Forall_app in Hall as [Hit Hrest].
    rewrite length_app, Nat2Z.inj_add.
    destruct it as [ty ps]. cbn [get_type find_all_p] in *.
    destruct ty; cbn zeta.
    + rewrite (walk_paragraphs_blank _ Hit).
      cbn [value_of trace_of world_of fst snd]. rewrite (IH Hrest).
      cbn [value_of trace_of world_of fst snd]. rewrite Z.add_assoc.
      destruct progress_callback; [|reflexivity].
      rewrite <- notifications_app.
      replace (current_count + Z.of_nat (List.length ps) + 1)%Z
        with (current_count + 1 + Z.of_nat (List.length ps))%Z by lia.
      reflexivity.
    + rewrite (IH Hrest).
      cbn [value_of trace_of world_of fst snd app List.length].
      rewrite Z.add_0_l. reflexivity.
Qed.

End WalkFurther.

(** X19. A run that starts leaves the frame of the book as it was: the
    metadata is not changed (the overrides only reach the prompts), the
    items stay in their number, order and type, and an item that is not a
    document is handed on as it was read. *)
Theorem translate_book_keeps_items
    (input_path output_path language model_name : str) (token_limit : Z)
    (template_path : str) (progress_callback : bool) (genre : str)
    (bilingual : bool) (override_title override_author : str) (w : World)
    (prompt_template : Template) (b : book)
    (Htemplate : load_prompt_template template_path = Some prompt_template)
    (Hbook : read_epub input_path = Some b) :
  exists written current_count total_paragraphs,
    value_of
      (translate_book input_path output_path language model_name token_limit
         template_path progress_callback genre bilingual override_title
         override_author w)
    = Done written current_count total_paragraphs
    /\ dc_title written = dc_title b
    /\ dc_creator written = dc_creator b
    /\ Forall2 same_item (get_items b) (get_items written).
Proof.
  rewrite (translate_book_run input_path output_path language model_name
             token_limit template_path progress_callback genre bilingual
             override_title override_author w _ _ Htemplate Hbook).
  cbn zeta. do 3 eexists. split; [reflexivity|].
  cbn [dc_title dc_creator get_items]. repeat split.
  apply walk_items_same_item.
Qed.

(** X20. A book in which every paragraph is empty or whitespace is
    written back exactly as it was read, with no backend call and no log;
    only the progress notifications happen. *)
Theorem blank_book_written_unchanged
    (input_path output_path language model_name : str) (token_limit : Z)
    (template_path : str) (progress_callback : bool) (genre : str)
    (bilingual : bool) (override_title override_author : str) (w : World)
    (prompt_template : Template) (b : book)
    (Htemplate : load_prompt_template template_path = Some prompt_template)
    (Hbook : read_epub input_path = Some b)
    (Hblank : Forall (fun p => blank (raw_text p) = true)
                (visited (get_items b))) :
  let n := List.length (visited (get_items b)) in
  translate_book input_path output_path language model_name token_limit
    template_path progress_callback genre bilingual override_title
    override_author w
  = (Done b (Z.of_nat n) (Z.of_nat n),
     (if progress_callback then notifications n 1 (Z.of_nat n) else []),
     w).
Proof.
  intro n.
  rewrite (translate_book_run input_path output_path language model_name
             token_limit template_path progress_callback genre bilingual
             override_title override_author w _ _ Htemplate Hbook).
  cbn zeta. rewrite (walk_items_blank _ _ _ _ _ _ _ _ _ _ _ Hblank).
  cbn [value_of trace_of world_of fst snd]. fold n.
  rewrite Z.add_0_l. destruct b. reflexivity.
Qed.

(** *** The retry settings of a run *)

Lemma retry_traces_range (P : event -> Prop) (max_retries : Z) (delay : Q)
    (model_name prompt_content : str) :
  P (Chat model_name prompt_content) ->
  P (LogSkippingChunk max_retries) ->
  P (Sleep delay) ->
  forall remaining attempt,
    (forall a e,
       (attempt < a <= attempt + Z.of_nat remaining)%Z ->
       P (LogAttemptFailed a e)) ->
    traces P (retry remaining attempt max_retries delay
                model_name prompt_content).
Proof.
  intros Hchat Hskip Hsleep.
  induction remaining as [|n IH]; intros attempt Hlog; cbn [retry].
  - apply traces_bind; [apply traces_emit, Hskip|].
    intro. apply traces_ret.
  - assert (Hnext : forall a e,
              (attempt + 1 < a <= attempt + 1 + Z.of_nat n)%Z ->
              P (LogAttemptFailed a e)).
    { intros a e Ha. apply Hlog. lia. }
    apply traces_bind; [apply traces_call_chat, Hchat|].
    intros [[| |content]|e].
    + apply IH, Hnext.
    + apply IH, Hnext.
    + apply traces_ret.
    + apply traces_bind; [apply traces_emit, Hlog; lia|]. intro.
      apply traces_bind; [apply traces_emit, Hsleep|]. intro.
      apply IH, Hnext.
Qed.

Lemma translate_chunks_default_settings (todo : list str)
    (target_language model_name : str) (prompt_template : Template)
    (genre title author : str) :
  forall acc,
    traces default_settings
      (translate_chunks todo acc target_language model_name prompt_template
         genre title author default_max_retries default_delay).
Proof.
  induction todo as [|chunk rest IH]; intro acc; cbn [translate_chunks].
  - apply traces_ret.
  - destruct (truthy (strip chunk)); [|apply IH].
    apply traces_bind; [|intro; apply IH].
    apply retry_traces_range; try reflexivity; try exact I.
    intros a e Ha. cbn in *. lia.
Qed.

Lemma walk_items_default_settings
    (language model_name : str) (token_limit : Z)
    (prompt_template : Template) (progress_callback : bool) (genre : str)
    (bilingual : bool) (final_title final_author : str)
    (total_paragraphs : Z) (items : list item) :
  forall current_count,
    traces default_settings
      (walk_items language model_name token_limit prompt_template
         progress_callback genre bilingual final_title final_author
         total_paragraphs items current_count).
Proof.
  assert (Hp : forall p,
            traces default_settings
              (translate_paragraph language model_name token_limit
                 prompt_template genre bilingual final_title final_author p)).
  { intro p. unfold translate_paragraph.
    destruct (truthy (clean_text (get_text p))); [|apply traces_ret].
    apply traces_bind; [|intro; apply traces_ret].
    unfold translate_text. destruct (truthy (strip _)); [|apply traces_ret].
    apply traces_bind; [|intro; apply traces_ret].
    apply translate_chunks_default_settings. }
  assert (Hps : forall ps current_count,
            traces default_settings
              (walk_paragraphs language model_name token_limit
                 prompt_template progress_callback genre bilingual
                 final_title final_author total_paragraphs ps current_count)).
  { induction ps as [|p rest IH]; intro c; cbn [walk_paragraphs].
    - apply traces_ret.
    - apply traces_bind; [apply Hp|]. intro.
      apply traces_bind.
      + unfold report_progress. destruct progress_callback;
          [apply traces_emit; exact I|apply traces_ret].
      + intro. apply traces_bind; [apply IH|]. intro. apply traces_ret. }
  induction items as [|it rest IH]; intro c; cbn [walk_items].
  - apply traces_ret.
  - destruct (get_type it).
    + apply traces_bind; [apply Hps|]. intro.
      apply traces_bind; [apply IH|]. intro. apply traces_ret.
    + apply traces_bind; [apply IH|]. intro. apply traces_ret.
Qed.

(** X21. A run of [translate_book] always retries with the built-in
    settings, which no argument changes: every wait is 2.0, a chunk is
    given up after 3 attempts, and failed attempts are numbered 1 to 3. *)
Theorem translate_book_default_settings
    (input_path output_path language model_name : str) (token_limit : Z)
    (template_path : str) (progress_callback : bool) (genre : str)
    (bilingual : bool) (override_title override_author : str) (w : World) :
  Forall default_settings
    (trace_of
       (translate_book input_path output_path language model_name
          token_limit template_path progress_callback genre bilingual
          override_title override_author w)).
Proof.
  unfold translate_book.
  destruct (load_prompt_template template_path); [|constructor].
  destruct (read_epub input_path) eqn:R; [|constructor].
  destruct (count_paragraphs_in_book input_path); [|constructor].
  rewrite trace_bind, trace_ret, app_nil_r.
  apply walk_items_default_settings.
Qed.

(** ** Properties of the front end *)

Lemma progress_signals_app (a b : list event) :
  Gui.progress_signals (a ++ b)
  = Gui.progress_signals a ++ Gui.progress_signals b.
Proof. unfold Gui.progress_signals. apply flat_map_app. Qed.

Lemma progress_signals_filter (tr : list event) :
  Gui.progress_signals tr = Gui.progress_signals (filter is_progress tr).
Proof.
  unfold Gui.progress_signals.
  induction tr as [|e tr IH]; [reflexivity|].
  destruct e; cbn [filter is_progress flat_map app]; rewrite <- ?IH;
    reflexivity.
Qed.

Lemma progress_signals_notifications (n : nat) :
  forall first total,
    Gui.progress_signals (notifications n first total)
    = map (fun k => Gui.progressChanged (first + Z.of_nat k) total) (seq 0 n).
Proof.
  induction n as [|n IH]; intros first total; [reflexivity|].
  cbn [notifications seq map]. cbn. rewrite Z.add_0_r. f_equal.
  fold (Gui.progress_signals (notifications n (first + 1) total)).
  rewrite IH, <- seq_shift, map_map. apply map_ext. intro k.
  f_equal. lia.
Qed.

(** X22. The signals of a worker whose walk raises nothing.  When the
    template or the book cannot be loaded: the single signal [error].
    Otherwise the walk is run to its end, with one [progressChanged] per
    paragraph tag, carrying 1, 2, ... and the total, and the book it leaves
    is written: then [finished] when the write succeeds, and [error] when
    it fails.  So [error] can follow all the progress signals, and
    [finished] is emitted only after a successful write; the terminal
    signal is emitted exactly once and last. *)
Theorem Worker_run_signals (self : Gui.Worker) (w : World) :
  let run :=
    translate_book (Gui.input_path self) (Gui.output_path self)
      (Gui.language self) (Gui.model_name self) (Gui.token_limit self)
      (Gui.template_path self) true (Gui.genre self) (Gui.bilingual self)
      (Gui.override_title self) (Gui.override_author self) w in
  match load_prompt_template (Gui.template_path self),
        read_epub (Gui.input_path self) with
  | None, _ =>
      fst (Worker_run self w) = [Gui.error (Gui.LoadError TemplateLoadError)]
  | Some _, None =>
      fst (Worker_run self w) = [Gui.error (Gui.LoadError EpubReadError)]
  | Some _, Some b =>
      let n := List.length (visited (get_items b)) in
      exists written,
        value_of run = Done written (Z.of_nat n) (Z.of_nat n)
        /\ fst (Worker_run self w)
           = map (fun k => Gui.progressChanged (1 + Z.of_nat k) (Z.of_nat n))
               (seq 0 n)
             ++ [if write_epub (Gui.output_path self) written
                 then Gui.finished
                 else Gui.error Gui.WriteError]
  end.
Proof.
  unfold Worker_run.
  destruct (load_prompt_template (Gui.template_path self)) as [tpl|] eqn:T.
  - destruct (read_epub (Gui.input_path self)) as [b|] eqn:R.
    + rewrite (translate_book_run _ (Gui.output_path self)
                 (Gui.language self) (Gui.model_name self)
                 (Gui.token_limit self) _ true (Gui.genre self)
                 (Gui.bilingual self) (Gui.override_title self)
                 (Gui.override_author self) w _ _ T R).
      cbn zeta. cbn [fst value_of].
      match goal with
      | |- context [walk_items ?a1 ?a2 ?a3 ?a4 ?a5 ?a6 ?a7 ?a8 ?a9 ?a10 ?a11 ?a12 w] =>
          destruct (walk_items_progress a1 a2 a3 a4 a5 a6 a7 a8 a9 a10 a11 a12 w)
            as [Ht Hv]
      end.
      cbn zeta in Ht, Hv. eexists. split.
      * rewrite Hv, Z.add_0_l. reflexivity.
      * rewrite progress_signals_filter, Ht, progress_signals_notifications.
        reflexivity.
    + unfold translate_book. rewrite T, R. reflexivity.
  - unfold translate_book. rewrite T. reflexivity.
Qed.

Lemma all_truthy_strip (fields : list str) :
  Gui.all_truthy (map strip fields) = forallb (fun f => negb (blank f)) fields.
Proof.
  unfold Gui.all_truthy. induction fields as [|f fields IH]; [reflexivity|].
  cbn [map forallb]. rewrite truthy_strip, IH. reflexivity.
Qed.

(** X23. [start_translation] starts a worker exactly when each of the six
    required fields (input, output, template, language, model, genre) has a
    character that is not whitespace; the two overrides may be empty.  The
    worker gets every text field stripped. *)
Theorem start_translation_requires_fields (f : Gui.form) :
  Gui.start_translation f
  = if forallb (fun field => negb (blank field))
         [Gui.inputEdit f; Gui.outputEdit f; Gui.templateEdit f;
          Gui.languageEdit f; Gui.modelEdit f; Gui.genreEdit f]
    then Gui.Started
           {| Gui.input_path := strip (Gui.inputEdit f);
              Gui.output_path := strip (Gui.outputEdit f);
              Gui.language := strip (Gui.languageEdit f);
              Gui.model_name := strip (Gui.modelEdit f);
              Gui.token_limit := Gui.tokenSpin f;
              Gui.template_path := strip (Gui.templateEdit f);
              Gui.genre := strip (Gui.genreEdit f);
              Gui.bilingual := Gui.bilingualCheck f;
              Gui.override_title := strip (Gui.titleEdit f);
              Gui.override_author := strip (Gui.authorEdit f) |}
    else Gui.MissingInfo.
Proof.
  unfold Gui.start_translation.
  rewrite <- all_truthy_strip. cbn [map].
  destruct (Gui.all_truthy _); reflexivity.
Qed.

(** X24. An override typed in the front end counts only if it has a
    character that is not whitespace: the title used for the prompts is then
    the stripped override, and otherwise the document's title or the
    fallback. *)
Theorem gui_override_resolution (f : Gui.form) (worker : Gui.Worker)
    (data : metadata) (fallback : str)
    (Hstarted : Gui.start_translation f = Gui.Started worker) :
  resolve (Gui.override_title worker) data fallback
  = if blank (Gui.titleEdit f)
    then match data with
         | (value, _) :: _ => value
         | [] => fallback
         end
    else strip (Gui.titleEdit f).
Proof.
  unfold Gui.start_translation in Hstarted.
  destruct (negb _) in Hstarted; [discriminate|].
  injection Hstarted as <-. cbn [Gui.override_title].
  unfold resolve. rewrite truthy_strip.
  destruct (blank (Gui.titleEdit f)); reflexivity.
Qed.

(** ** What a paragraph sends to the backend *)

Lemma rstrip_idempotent (s : str) : rstrip (rstrip s) = rstrip s.
Proof.
  induction s as [|c t IH]; [reflexivity|].
  cbn [rstrip]. destruct (rstrip t) as [|d t'] eqn:R.
  - destruct (isspace c) eqn:Ec; [reflexivity|].
    cbn [rstrip]. rewrite Ec. reflexivity.
  - change (rstrip (c :: d :: t'))
      with (match rstrip (d :: t') with
            | [] => if isspace c then [] else [c]
            | t'' => c :: t''
            end).
    rewrite IH. reflexivity.
Qed.

Lemma lstrip_rstrip_lstrip (s : str) :
  lstrip (rstrip (lstrip s)) = rstrip (lstrip s).
Proof.
  induction s as [|c t IH]; [reflexivity|].
  cbn [lstrip]. destruct (isspace c) eqn:Ec; [exact IH|].
  cbn [rstrip]. destruct (rstrip t); rewrite ?Ec; cbn [lstrip]; rewrite Ec;
    reflexivity.
Qed.

Lemma strip_idempotent (s : str) : strip (strip s) = strip s.
Proof.
  unfold strip. rewrite lstrip_rstrip_lstrip. apply rstrip_idempotent.
Qed.

Lemma strip_clean_text (text : str) : strip (clean_text text) = clean_text text.
Proof. unfold clean_text. apply strip_idempotent. Qed.

Lemma translate_text_chat_for (text target_language model_name : str)
    (token_limit : Z) (prompt_template : Template)
    (genre title author : str) (max_retries : Z) (delay : Q) (w : World) :
  Forall
    (chat_for model_name prompt_template target_language genre title author
       (sendable (split_text_by_tokens (strip text) (token_limit / 2))))
    (trace_of
       (translate_text text target_language model_name token_limit
          prompt_template genre title author max_retries delay w)).
Proof.
  destruct (blank text) eqn:B.
  - rewrite (translate_text_blank_run _ _ _ _ _ _ _ _ _ _ w B). constructor.
  - rewrite (translate_text_run _ _ _ _ _ _ _ _ _ token_limit w B).
    apply translate_chunks_chat_for.
Qed.

(** X25. For a paragraph, the backend is called only with the chunks of
    the paragraph's normalized text: the text that is chunked is exactly
    [clean_text] of the paragraph's text (the strip inside [translate_text]
    changes nothing). *)
Theorem translate_paragraph_sends_clean_chunks
    (language model_name : str) (token_limit : Z)
    (prompt_template : Template) (genre : str) (bilingual : bool)
    (final_title final_author : str) (p : p_tag) (w : World) :
  Forall
    (chat_for model_name prompt_template language genre final_title
       final_author
       (sendable
          (split_text_by_tokens (clean_text (get_text p)) (token_limit / 2))))
    (trace_of
       (translate_paragraph language model_name token_limit prompt_template
          genre bilingual final_title final_author p w)).
Proof.
  unfold translate_paragraph.
  destruct (truthy (clean_text (get_text p))); [|constructor].
  rewrite trace_bind, trace_ret, app_nil_r.
  rewrite <- (strip_clean_text (get_text p)) at 1.
  apply translate_text_chat_for.
Qed.

(** ** A template that prints an undefined name *)




Section Accepted.

Variables (language model_name : str) (token_limit : Z)
          (prompt_template : Template) (progress_callback : bool)
          (genre : str) (bilingual : bool)
          (final_title final_author : str) (total_paragraphs : Z).

(** A backend call with the template rendered on some chunk. *)
Notation called trace :=
  (exists chunk,
     In (Chat model_name
           (render prompt_template
              (prompt_context language chunk genre final_title
                 final_author)))
       trace).




End Accepted.

End Translator.


Arguments value_of {World A} r.
Arguments trace_of {World A} r.
Arguments world_of {World A} r.
Arguments count_tokens {token} ENCODER_encode text.
Arguments split_text_by_tokens sent_tokenize {token} ENCODER_encode text max_tokens.
Arguments chunk_estimates_bounded sent_tokenize {token} ENCODER_encode text max_tokens.
Arguments translate_text sent_tokenize {token} ENCODER_encode {World} chat.
Arguments translate_paragraph sent_tokenize {token} ENCODER_encode {World} chat.
Arguments walk_paragraphs sent_tokenize {token} ENCODER_encode {World} chat.
Arguments translate_book sent_tokenize {token} ENCODER_encode {World} chat.

(** ** Concrete runs, with the sample collaborators *)

(** A run over the scripted backend: German, model [llama3], a token limit
    of 4096, a progress callback, no overrides. *)
Notation sample_translate_book input_path template_path bilingual :=
  (translate_book sample_sent_tokenize sample_encode scripted_chat
     sample_html_parser sample_read_epub sample_read_file
     sample_compile_template
     (lit input_path) (lit "out.epub") (lit "German") (lit "llama3") 4096%Z
     (lit template_path) true (lit "General") bilingual [] []).

(** C1, failing input. Every answer of the backend lacks the message key.
    The loop calls the backend three times in a row: no attempt is logged as
    failed and no delay is waited between two calls; only the final skip is
    logged, and the paragraph's translation is empty. *)
Theorem malformed_answers_retried_without_log_or_delay :
  translate_text sample_sent_tokenize sample_encode empty_reply_chat
    (lit "Hello world.") (lit "German") (lit "llama3") 4096%Z plain_template
    (lit "General") (lit "Greetings") (lit "Unknown Author")
    default_max_retries default_delay 0%nat
  = ([],
     [Chat (lit "llama3") (lit "Translate into German: Hello world.");
      Chat (lit "llama3") (lit "Translate into German: Hello world.");
      Chat (lit "llama3") (lit "Translate into German: Hello world.");
      LogSkippingChunk 3],
     3%nat).
Proof. vm_compute. reflexivity. Qed.

(** The two sentences of [Hi! 2 cats.], of 2 and 3 tokens, fit a budget of
    5 by their sum and are put in one chunk, whose own estimate is 6. *)
Lemma hi_2_cats_estimates :
  sample_sent_tokenize (lit "Hi! 2 cats.") = [lit "Hi!"; lit "2 cats."]
  /\ count_tokens sample_encode (lit "Hi!") = 2%Z
  /\ count_tokens sample_encode (lit "2 cats.") = 3%Z
  /\ split_text_by_tokens sample_sent_tokenize sample_encode
       (lit "Hi! 2 cats.") 5
     = [lit "Hi! 2 cats."]
  /\ count_tokens sample_encode (lit "Hi! 2 cats.") = 6%Z.
Proof. repeat split; vm_compute; reflexivity. Qed.

(** C2, as stated, fails on that text: the chunk is over the budget of 5
    and is not a single sentence. *)
Lemma joined_chunk_exceeds_budget :
  ~ chunk_estimates_bounded sample_sent_tokenize sample_encode
      (lit "Hi! 2 cats.") 5.
Proof.
  unfold chunk_estimates_bounded.
  destruct hi_2_cats_estimates as (Hs & _ & _ & Hc & He).
  rewrite Hc, Hs. intro H.
  inversion H as [|chunk rest [Hle|(sentence & Hin & Heq & _)] _]; subst.
  - rewrite He in Hle. lia.
  - destruct Hin as [<-|[<-|[]]]; vm_compute in Heq; discriminate.
Qed.

(** C3, as stated, fails where the tokenizer breaks a text at a place with
    no whitespace: the rejoined chunks have a space the text has not. *)
Lemma rejoined_chunks_gain_a_space :
  clean_text
    (join [SP]
       (split_text_by_tokens sample_sent_tokenize sample_encode
          (lit "Stop!(now)") 100))
  <> clean_text (lit "Stop!(now)").
Proof. vm_compute. discriminate. Qed.

Lemma rains_segmented :
  Segmented (lit "It rains. We stay.")
    (sample_sent_tokenize (lit "It rains. We stay.")).
Proof.
  change (Segmented (lit "It rains." ++ [SP] ++ lit "We stay." ++ [] ++ [])
            [lit "It rains."; lit "We stay."]).
  apply Segmented_sentence; [reflexivity|discriminate|].
  apply Segmented_sentence; [reflexivity|reflexivity|].
  apply Segmented_end. reflexivity.
Defined.

Lemma chunks_rejoin_to_clean_text_witness :
  Segmented (lit "It rains. We stay.")
    (sample_sent_tokenize (lit "It rains. We stay."))
  /\ clean_text
       (join [SP]
          (split_text_by_tokens sample_sent_tokenize sample_encode
             (lit "It rains. We stay.") 10))
     = clean_text (lit "It rains. We stay.").
Proof.
  split; [exact rains_segmented|].
  apply (chunks_rejoin_to_clean_text sample_sent_tokenize _ sample_encode
           (lit "It rains. We stay.") 10 rains_segmented).
Defined.

Lemma split_text_by_tokens_nonempty_ordered_witness :
  sample_sent_tokenize [] = []
  /\ Forall (fun sentence => clean_text sentence <> [])
       (sample_sent_tokenize (lit "It rains. We stay."))
  /\ split_text_by_tokens sample_sent_tokenize sample_encode [] 4 = []
  /\ Forall (fun chunk => chunk <> [])
       (split_text_by_tokens sample_sent_tokenize sample_encode
          (lit "It rains. We stay.") 4).
Proof.
  assert (Hempty : sample_sent_tokenize [] = []) by reflexivity.
  assert (Hsentences :
    Forall (fun sentence => clean_text sentence <> [])
      (sample_sent_tokenize (lit "It rains. We stay."))).
  { change (sample_sent_tokenize (lit "It rains. We stay."))
      with [lit "It rains."; lit "We stay."].
    repeat constructor; intro H; vm_compute in H; discriminate. }
  split; [exact Hempty|]. split; [exact Hsentences|].
  pose proof (split_text_by_tokens_nonempty_ordered sample_sent_tokenize _
                sample_encode (lit "It rains. We stay.") 4 Hempty Hsentences)
    as (H1 & H2 & _).
  split; assumption.
Defined.

Lemma bilingual_bonjour_hello_witness :
  clean_text (get_text (paragraph (lit "Bonjour"))) = lit "Bonjour"
  /\ sample_sent_tokenize (lit "Bonjour") = [lit "Bonjour"]
  /\ (forall prompt_content,
        fst (scripted_chat (lit "llama3") prompt_content
               [Returns (MessageContent (lit "Hello"))])
        = Returns (MessageContent (lit "Hello")))
  /\ value_of
       (translate_paragraph sample_sent_tokenize sample_encode scripted_chat
          sample_html_parser (lit "English") (lit "llama3") 4096
          plain_template (lit "General") true (lit "Unknown Title")
          (lit "A. Nonyme") (paragraph (lit "Bonjour"))
          [Returns (MessageContent (lit "Hello"))])
     = {| contents :=
            [Tag "[document]"
               (sample_html_parser
                  (lit "ORIGINAL: Bonjour<br/><br/><i>TRANSLATION: Hello</i>"))] |}.
Proof.
  split; [reflexivity|]. split; [reflexivity|]. split; [reflexivity|].
  apply (bilingual_bonjour_hello sample_sent_tokenize _ sample_encode _
           scripted_chat sample_html_parser (lit "English") (lit "llama3")
           4096 plain_template (lit "General") (lit "Unknown Title")
           (lit "A. Nonyme") (paragraph (lit "Bonjour"))
           [Returns (MessageContent (lit "Hello"))]);
    reflexivity.
Defined.

(** The end-to-end scenario: one part with the paragraphs [Hello world.]
    and the empty one. *)
Lemma progress_counter_matches_total_witness :
  load_prompt_template sample_read_file sample_compile_template
    (lit "prompt.txt") = Some plain_template
  /\ sample_read_epub (lit "hello.epub") = Some hello_book
  /\ filter is_progress
       (trace_of
          (sample_translate_book "hello.epub" "prompt.txt" false
             [Returns (MessageContent (lit "Hallo Welt."))]))
     = [ProgressCallback 1 2; ProgressCallback 2 2]
  /\ exists written,
       value_of
         (sample_translate_book "hello.epub" "prompt.txt" false
            [Returns (MessageContent (lit "Hallo Welt."))])
       = Done written 2 2.
Proof.
  assert (Htemplate :
    load_prompt_template sample_read_file sample_compile_template
      (lit "prompt.txt") = Some plain_template) by reflexivity.
  assert (Hbook : sample_read_epub (lit "hello.epub") = Some hello_book)
    by reflexivity.
  split; [exact Htemplate|]. split; [exact Hbook|].
  pose proof (progress_counter_matches_total sample_sent_tokenize _
                sample_encode _ scripted_chat sample_html_parser
                sample_read_epub sample_read_file sample_compile_template
                (lit "hello.epub") (lit "out.epub") (lit "German")
                (lit "llama3") 4096 (lit "prompt.txt") true (lit "General")
                false [] [] [Returns (MessageContent (lit "Hallo Welt."))]
                plain_template hello_book Htemplate Hbook)
    as (_ & Hdone & Hcalls & _).
  split; [exact Hcalls|exact Hdone].
Defined.


Lemma blank_paragraph_left_untouched_witness :
  blank (raw_text (paragraph (lit "  "))) = true
  /\ translate_paragraph sample_sent_tokenize sample_encode scripted_chat
       sample_html_parser (lit "German") (lit "llama3") 4096 plain_template
       (lit "General") false (lit "Greetings") (lit "Unknown Author")
       (paragraph (lit "  ")) [Returns (MessageContent (lit "unused"))]
     = (paragraph (lit "  "), [], [Returns (MessageContent (lit "unused"))]).
Proof.
  split; [reflexivity|].
  apply (blank_paragraph_left_untouched sample_sent_tokenize _ sample_encode
           _ scripted_chat sample_html_parser (lit "German") (lit "llama3")
           4096 plain_template true (lit "General") false (lit "Greetings")
           (lit "Unknown Author") 2 (paragraph (lit "  ")) [] 0
           [Returns (MessageContent (lit "unused"))]).
  reflexivity.
Defined.



(** ** Concrete runs for the further properties *)

Lemma clean_text_of_separated_witness :
  blank (lit "   ") = true
  /\ lit "   " <> []
  /\ blank (lit "It rains.") = false
  /\ blank (lit "We stay.") = false
  /\ clean_text (lit "It rains." ++ lit "   " ++ lit "We stay.")
     = clean_text (lit "It rains.") ++ [SP] ++ clean_text (lit "We stay.").
Proof.
  split; [reflexivity|]. split; [discriminate|].
  split; [reflexivity|]. split; [reflexivity|].
  apply clean_text_of_separated;
    [reflexivity|discriminate|reflexivity|reflexivity].
Defined.

Lemma fitting_text_is_one_chunk_witness :
  sample_sent_tokenize (lit "It rains. We stay.") <> []
  /\ (estimate_sum _ sample_encode
        (map clean_text (sample_sent_tokenize (lit "It rains. We stay.")))
      <= 20)%Z
  /\ split_text_by_tokens sample_sent_tokenize sample_encode
       (lit "It rains. We stay.") 20
     = [lit "It rains. We stay."].
Proof.
  assert (Hsome : sample_sent_tokenize (lit "It rains. We stay.") <> [])
    by (vm_compute; discriminate).
  assert (Hfit :
    (estimate_sum _ sample_encode
       (map clean_text (sample_sent_tokenize (lit "It rains. We stay.")))
     <= 20)%Z) by (vm_compute; discriminate).
  split; [exact Hsome|]. split; [exact Hfit|].
  exact (fitting_text_is_one_chunk sample_sent_tokenize _ sample_encode
           (lit "It rains. We stay.") 20 Hsome Hfit).
Defined.

Lemma oversize_sentences_stand_alone_witness :
  Forall (fun s => (count_tokens sample_encode (clean_text s) > 4)%Z)
    (sample_sent_tokenize (lit "It rains. We stay."))
  /\ split_text_by_tokens sample_sent_tokenize sample_encode
       (lit "It rains. We stay.") 4
     = [lit "It rains."; lit "We stay."].
Proof.
  assert (Hover :
    Forall (fun s => (count_tokens sample_encode (clean_text s) > 4)%Z)
      (sample_sent_tokenize (lit "It rains. We stay."))).
  { change (sample_sent_tokenize (lit "It rains. We stay."))
      with [lit "It rains."; lit "We stay."].
    repeat constructor. }
  split; [exact Hover|].
  exact (oversize_sentences_stand_alone sample_sent_tokenize _ sample_encode
           (lit "It rains. We stay.") 4 Hover).
Defined.

Lemma translate_text_blank_witness :
  blank (lit "  ") = true
  /\ translate_text sample_sent_tokenize sample_encode scripted_chat
       (lit "  ") (lit "German") (lit "llama3") 4096 plain_template
       (lit "General") (lit "Greetings") (lit "Unknown Author") 3 (2 # 1)
       [Returns (MessageContent (lit "unused"))]
     = ([], [], [Returns (MessageContent (lit "unused"))]).
Proof.
  split; [reflexivity|].
  apply translate_text_blank. reflexivity.
Defined.

Lemma translate_text_without_retries_witness :
  (0 <= 0)%Z
  /\ translate_text sample_sent_tokenize sample_encode scripted_chat
       (lit "It rains. We stay.") (lit "German") (lit "llama3") 16
       plain_template (lit "General") (lit "Greetings")
       (lit "Unknown Author") 0 (2 # 1)
       [Returns (MessageContent (lit "unused"))]
     = ([], [LogSkippingChunk 0; LogSkippingChunk 0],
        [Returns (MessageContent (lit "unused"))]).
Proof.
  split; [apply Z.le_refl|].
  exact (translate_text_without_retries sample_sent_tokenize _ sample_encode
           _ scripted_chat (lit "German") (lit "llama3") plain_template
           (lit "General") (lit "Greetings") (lit "Unknown Author") 0 (2 # 1)
           (lit "It rains. We stay.") 16
           [Returns (MessageContent (lit "unused"))] (Z.le_refl 0)).
Defined.

Lemma translate_text_answered_witness :
  (forall prompt_content w,
     fst (echo_chat (lit "llama3") prompt_content w)
     = Returns (MessageContent prompt_content))
  /\ (0 < 3)%Z
  /\ blank (lit "It rains. We stay.") = false
  /\ value_of
       (translate_text sample_sent_tokenize sample_encode echo_chat
          (lit "It rains. We stay.") (lit "German") (lit "llama3") 16
          plain_template (lit "General") (lit "Greetings")
          (lit "Unknown Author") 3 (2 # 1) 0%nat)
     = lit "Translate into German: It rains. Translate into German: We stay."
  /\ trace_of
       (translate_text sample_sent_tokenize sample_encode echo_chat
          (lit "It rains. We stay.") (lit "German") (lit "llama3") 16
          plain_template (lit "General") (lit "Greetings")
          (lit "Unknown Author") 3 (2 # 1) 0%nat)
     = [Chat (lit "llama3") (lit "Translate into German: It rains.");
        Chat (lit "llama3") (lit "Translate into German: We stay.")].
Proof.
  split; [reflexivity|]. split; [reflexivity|]. split; [reflexivity|].
  exact (translate_text_answered sample_sent_tokenize _ sample_encode _
           echo_chat (lit "German") (lit "llama3") plain_template
           (lit "General") (lit "Greetings") (lit "Unknown Author") 3 (2 # 1)
           (fun p => p) (fun p w => eq_refl) eq_refl
           (lit "It rains. We stay.") 16 0%nat eq_refl).
Defined.

Lemma failed_translation_empties_paragraph_witness :
  blank (raw_text (paragraph (lit "Hello world."))) = false
  /\ (forall prompt_content w' content,
        fst (empty_reply_chat (lit "llama3") prompt_content w')
        <> Returns (MessageContent content))
  /\ value_of
       (translate_paragraph sample_sent_tokenize sample_encode
          empty_reply_chat sample_html_parser (lit "German") (lit "llama3")
          4096 plain_template (lit "General") false (lit "Greetings")
          (lit "Unknown Author") (paragraph (lit "Hello world.")) 0%nat)
     = {| contents := [NavigableString []] |}.
Proof.
  assert (Hfail : forall prompt_content w' content,
            fst (empty_reply_chat (lit "llama3") prompt_content w')
            <> Returns (MessageContent content))
    by (intros; discriminate).
  split; [reflexivity|]. split; [exact Hfail|].
  exact (failed_translation_empties_paragraph sample_sent_tokenize _
           sample_encode _ empty_reply_chat sample_html_parser (lit "German")
           (lit "llama3") 4096 plain_template (lit "General") false
           (lit "Greetings") (lit "Unknown Author")
           (paragraph (lit "Hello world.")) 0%nat eq_refl Hfail).
Defined.

Lemma translate_book_keeps_items_witness :
  load_prompt_template sample_read_file sample_compile_template
    (lit "prompt.txt") = Some plain_template
  /\ sample_read_epub (lit "hello.epub") = Some hello_book
  /\ exists written current_count total_paragraphs,
       value_of
         (sample_translate_book "hello.epub" "prompt.txt" true
            [Returns (MessageContent (lit "Hallo Welt."))])
       = Done written current_count total_paragraphs
       /\ dc_title written = dc_title hello_book
       /\ dc_creator written = dc_creator hello_book
       /\ Forall2 same_item (get_items hello_book) (get_items written).
Proof.
  assert (Htemplate :
    load_prompt_template sample_read_file sample_compile_template
      (lit "prompt.txt") = Some plain_template) by reflexivity.
  assert (Hbook : sample_read_epub (lit "hello.epub") = Some hello_book)
    by reflexivity.
  split; [exact Htemplate|]. split; [exact Hbook|].
  exact (translate_book_keeps_items sample_sent_tokenize _ sample_encode _
           scripted_chat sample_html_parser sample_read_epub sample_read_file
           sample_compile_template (lit "hello.epub") (lit "out.epub")
           (lit "German") (lit "llama3") 4096 (lit "prompt.txt") true
           (lit "General") true [] []
           [Returns (MessageContent (lit "Hallo Welt."))]
           plain_template hello_book Htemplate Hbook).
Defined.

Lemma blank_book_written_unchanged_witness :
  load_prompt_template sample_read_file sample_compile_template
    (lit "prompt.txt") = Some plain_template
  /\ blank_read_epub (lit "blank.epub") = Some blank_book
  /\ Forall (fun p => blank (raw_text p) = true)
       (visited (get_items blank_book))
  /\ translate_book sample_sent_tokenize sample_encode scripted_chat
       sample_html_parser blank_read_epub sample_read_file
       sample_compile_template (lit "blank.epub") (lit "out.epub")
       (lit "German") (lit "llama3") 4096 (lit "prompt.txt") true
       (lit "General") false (lit "Another title") []
       [Returns (MessageContent (lit "unused"))]
     = (Done blank_book 3 3,
        [ProgressCallback 1 3; ProgressCallback 2 3; ProgressCallback 3 3],
        [Returns (MessageContent (lit "unused"))]).
Proof.
  assert (Htemplate :
    load_prompt_template sample_read_file sample_compile_template
      (lit "prompt.txt") = Some plain_template) by reflexivity.
  assert (Hbook : blank_read_epub (lit "blank.epub") = Some blank_book)
    by reflexivity.
  assert (Hblank : Forall (fun p => blank (raw_text p) = true)
                     (visited (get_items blank_book)))
    by (repeat constructor).
  split; [exact Htemplate|]. split; [exact Hbook|]. split; [exact Hblank|].
  exact (blank_book_written_unchanged sample_sent_tokenize _ sample_encode _
           scripted_chat sample_html_parser blank_read_epub sample_read_file
           sample_compile_template (lit "blank.epub") (lit "out.epub")
           (lit "German") (lit "llama3") 4096 (lit "prompt.txt") true
           (lit "General") false (lit "Another title") []
           [Returns (MessageContent (lit "unused"))]
           plain_template blank_book Htemplate Hbook Hblank).
Defined.

Lemma gui_override_resolution_witness :
  Gui.start_translation sample_form = Gui.Started sample_worker
  /\ resolve (Gui.override_title sample_worker) (dc_title hello_book)
       (lit "Unknown Title")
     = lit "Greetings".
Proof.
  split; [reflexivity|].
  exact (gui_override_resolution sample_form sample_worker
           (dc_title hello_book) (lit "Unknown Title") eq_refl).
Defined.
